(** * Conway's Game of Life: the [GameOfLife] class of [game.js]

    A shallow embedding of the simulation engine (grid state, neighbour
    counting, generation advance, run/pause/speed scheduling) and the
    properties its specification states about it.

    Modelling conventions.
    - Arrays are objects in a heap, and the fields [currentGrid] and
      [nextGrid] hold references: the swap in [step] exchanges two
      references, and an assignment to a cell mutates the row object
      whoever else holds it.  That the two buffers share no row is
      proved as an invariant, not assumed.
    - A JavaScript array is an object whose integer-named properties are
      its elements: a finite map from [Z].  A missing key reads as
      [undefined] ([None]); writing at any key, in range or not, defines
      that key, which is how an assignment past the end (or at a negative
      index) of a JavaScript array behaves.  [length] is never read by
      the program and is not modelled.  The program stores only rows in
      a grid array and only booleans in a row, so the heap keeps the two
      kinds of array apart.
    - Numbers ([gridSize], [speed], [generation], coordinates) are
      integers, [Z]: the page constructs the engine with 50, the slider
      handler passes [parseInt] of a range input, the click handlers pass
      loop counters.  A JavaScript number is an IEEE 754 double, which
      holds every integer up to 2^53 in magnitude; the counters and
      coordinates stay far below that.  The delay [start] computes is the
      one value a caller can drive beyond it, since [setSpeed] stores
      what it is given: that computation rounds as doubles do
      ([Number.sub], [Number.mul]).
    - Every method is a computation in the monad [JS]: it threads the
      state of the engine and of its host page, and completes normally
      or by throwing.  A throw keeps the state reached so far, as an
      uncaught exception in an event handler does.
    - Of the page, two things are state: which cell elements
      [createDOMGrid] has put in the document (a lookup of a missing
      element gives [null], and using [null] throws), and which repeating
      timers [setInterval] has armed.  The static elements of the page
      (buttons, counters, the grid container, the theme toggle) exist;
      class lists, text contents and the stored theme are write-only for
      the engine and are left out. *)

From stdpp Require Import gmap list strings.

Local Open Scope Z_scope.

(** ** Completions and the state of the engine and its host *)

Inductive js_error : Type :=
  | TypeError.

Inductive completion (A : Type) : Type :=
  | Normal (a : A)
  | Throw (e : js_error).
Arguments Normal {A} a.
Arguments Throw {A} e.

Record World : Type := mkWorld {
  (* fields of [this] *)
  gridSize : Z;
  currentGrid : positive;                (* reference to an array of rows *)
  nextGrid : positive;                   (* reference to an array of rows *)
  isRunning : bool;
  generation : Z;
  intervalId : option positive;          (* [null] is [None] *)
  speed : Z;
  (* the heap *)
  grids : gmap positive (gmap Z positive);   (* arrays of references to rows *)
  rows : gmap positive (gmap Z bool);        (* arrays of cells *)
  nextRef : positive;                    (* the reference the next [[]] gets *)
  (* the host page *)
  cells : gset (Z * Z);                  (* cell elements, by data-row, data-col *)
  timers : gmap positive Z;              (* armed repeating timers: handle to delay *)
  nextTimer : positive                   (* the handle [setInterval] returns next *)
}.

Definition set_currentGrid (a : positive) (w : World) : World :=
  mkWorld (gridSize w) a (nextGrid w) (isRunning w) (generation w)
          (intervalId w) (speed w) (grids w) (rows w) (nextRef w)
          (cells w) (timers w) (nextTimer w).
Definition set_nextGrid (a : positive) (w : World) : World :=
  mkWorld (gridSize w) (currentGrid w) a (isRunning w) (generation w)
          (intervalId w) (speed w) (grids w) (rows w) (nextRef w)
          (cells w) (timers w) (nextTimer w).
Definition set_isRunning (b : bool) (w : World) : World :=
  mkWorld (gridSize w) (currentGrid w) (nextGrid w) b (generation w)
          (intervalId w) (speed w) (grids w) (rows w) (nextRef w)
          (cells w) (timers w) (nextTimer w).
Definition set_generation (n : Z) (w : World) : World :=
  mkWorld (gridSize w) (currentGrid w) (nextGrid w) (isRunning w) n
          (intervalId w) (speed w) (grids w) (rows w) (nextRef w)
          (cells w) (timers w) (nextTimer w).
Definition set_intervalId (h : option positive) (w : World) : World :=
  mkWorld (gridSize w) (currentGrid w) (nextGrid w) (isRunning w) (generation w)
          h (speed w) (grids w) (rows w) (nextRef w)
          (cells w) (timers w) (nextTimer w).
Definition set_speed (s : Z) (w : World) : World :=
  mkWorld (gridSize w) (currentGrid w) (nextGrid w) (isRunning w) (generation w)
          (intervalId w) s (grids w) (rows w) (nextRef w)
          (cells w) (timers w) (nextTimer w).
Definition set_grids (g : gmap positive (gmap Z positive)) (w : World) : World :=
  mkWorld (gridSize w) (currentGrid w) (nextGrid w) (isRunning w) (generation w)
          (intervalId w) (speed w) g (rows w) (nextRef w)
          (cells w) (timers w) (nextTimer w).
Definition set_rows (r : gmap positive (gmap Z bool)) (w : World) : World :=
  mkWorld (gridSize w) (currentGrid w) (nextGrid w) (isRunning w) (generation w)
          (intervalId w) (speed w) (grids w) r (nextRef w)
          (cells w) (timers w) (nextTimer w).
Definition set_nextRef (l : positive) (w : World) : World :=
  mkWorld (gridSize w) (currentGrid w) (nextGrid w) (isRunning w) (generation w)
          (intervalId w) (speed w) (grids w) (rows w) l
          (cells w) (timers w) (nextTimer w).
Definition set_cells (d : gset (Z * Z)) (w : World) : World :=
  mkWorld (gridSize w) (currentGrid w) (nextGrid w) (isRunning w) (generation w)
          (intervalId w) (speed w) (grids w) (rows w) (nextRef w)
          d (timers w) (nextTimer w).
Definition set_timers (t : gmap positive Z) (p : positive) (w : World) : World :=
  mkWorld (gridSize w) (currentGrid w) (nextGrid w) (isRunning w) (generation w)
          (intervalId w) (speed w) (grids w) (rows w) (nextRef w)
          (cells w) t p.

(** ** The monad of method bodies *)

Definition JS (A : Type) : Type := World → completion A * World.

Definition ret {A} (a : A) : JS A := λ w, (Normal a, w).

Definition bind {A B} (m : JS A) (k : A → JS B) : JS B :=
  λ w, match m w with
       | (Normal a, w') => k a w'
       | (Throw e, w') => (Throw e, w')
       end.

Definition throw {A} (e : js_error) : JS A := λ w, (Throw e, w).
Definition gets {A} (f : World → A) : JS A := λ w, (Normal (f w), w).
Definition modify (f : World → World) : JS unit := λ w, (Normal tt, f w).

Notation "x <- m ;; k" := (bind m (λ x, k))
  (at level 100, m at next level, right associativity, only parsing).
Notation "m ;;; k" := (bind m (λ _, k))
  (at level 100, right associativity, only parsing).

(** A [for] loop over the values [xs] of its counter, with the local
    variables the body updates as accumulator. *)
Fixpoint foldJS {A} (xs : list Z) (body : Z → A → JS A) (acc : A) : JS A :=
  match xs with
  | [] => ret acc
  | x :: xs' => acc' <- body x acc ;; foldJS xs' body acc'
  end.

(** [for (let i = 0; i < n; i++)]: no body in the program assigns the
    bound, so the counter takes the values 0, ..., n-1 (none if [n <= 0]). *)
Definition for_upto {A} (n : Z) (body : Z → A → JS A) (acc : A) : JS A :=
  foldJS (seqZ 0 n) body acc.

(** ** Array accesses *)

(** [v] used as a condition, or under [!]: [undefined] is falsy. *)
Definition truthy (v : option bool) : bool := default false v.

(** The literal [[]] where a grid is stored: a fresh, empty array of rows. *)
Definition newGrid : JS positive :=
  λ w, let a := nextRef w in
       (Normal a, set_nextRef (Pos.succ a) (set_grids (<[a := ∅]> (grids w)) w)).

(** The literal [[]] where a row is stored: a fresh, empty array of cells. *)
Definition newRow : JS positive :=
  λ w, let l := nextRef w in
       (Normal l, set_nextRef (Pos.succ l) (set_rows (<[l := ∅]> (rows w)) w)).

(** [a[row] = l] on the grid array [a].  (A reference to nothing, which
    no program state has, is made to throw.) *)
Definition storeRow (a : positive) (row : Z) (l : positive) : JS unit :=
  λ w, match grids w !! a with
       | Some g => (Normal tt, set_grids (<[a := <[row := l]> g]> (grids w)) w)
       | None => (Throw TypeError, w)
       end.

(** The row object [a[row]]: its reference and its elements.  ([None]
    also for a reference to nothing, which no program state has.) *)
Definition rowOf (w : World) (a : positive) (row : Z)
  : option (positive * gmap Z bool) :=
  match grids w !! a with
  | Some g =>
      match g !! row with
      | Some l =>
          match rows w !! l with
          | Some r => Some (l, r)
          | None => None
          end
      | None => None
      end
  | None => None
  end.

(** Reading [a[row][col]]: indexing the [undefined] row throws. *)
Definition readCell (a : positive) (row col : Z) : JS (option bool) :=
  λ w, match rowOf w a row with
       | Some (_, r) => (Normal (r !! col), w)
       | None => (Throw TypeError, w)
       end.

(** [a[row][col] = v]: assigning into the [undefined] row throws;
    otherwise the key [col] of the row object is defined, wherever it
    lies. *)
Definition writeCell (a : positive) (row col : Z) (v : bool) : JS unit :=
  λ w, match rowOf w a row with
       | Some (l, r) => (Normal tt, set_rows (<[l := <[col := v]> r]> (rows w)) w)
       | None => (Throw TypeError, w)
       end.

Definition readCurrent (row col : Z) : JS (option bool) :=
  a <- gets currentGrid ;; readCell a row col.

Definition writeCurrent (row col : Z) (v : bool) : JS unit :=
  a <- gets currentGrid ;; writeCell a row col v.

Definition writeNext (row col : Z) (v : bool) : JS unit :=
  a <- gets nextGrid ;; writeCell a row col v.

(** ** The host: timers and cell elements *)

(** [setInterval(callback, delay)]: arms a repeating timer and returns
    its handle.  The only callback the program registers is [step]. *)
Definition setInterval (delay : Z) : JS positive :=
  λ w, let h := nextTimer w in
       (Normal h, set_timers (<[h := delay]> (timers w)) (Pos.succ h) w).

(** [clearInterval(id)]: disarms the timer; [null] names none. *)
Definition clearInterval (id : option positive) : JS unit :=
  λ w, match id with
       | Some h => (Normal tt, set_timers (delete h (timers w)) (nextTimer w) w)
       | None => (Normal tt, w)
       end.

(** ** Numbers

    The operators [-] and [*] on integer-valued doubles: the exact result,
    rounded to the nearest double, ties to the even significand.  A double
    has a significand of 53 bits, so an integer below 2^53 in magnitude is
    its own rounding, and a larger one is rounded to a multiple of the
    power of two that leaves 53 bits.  (Results beyond the largest finite
    double, about 2^1024, would be infinite; they are not modelled.) *)

Module Number.

Definition round (z : Z) : Z :=
  let a := Z.abs z in
  if a <? 2 ^ 53 then z
  else
    let ulp := 2 ^ (Z.log2 a - 52) in
    let q := a / ulp in
    let q' := match 2 * (a mod ulp) ?= ulp with
              | Lt => q
              | Gt => q + 1
              | Eq => if Z.even q then q else q + 1
              end in
    Z.sgn z * (q' * ulp).

Definition sub (a b : Z) : Z := round (a - b).

Definition mul (a b : Z) : Z := round (a * b).

End Number.

Arguments Number.round : simpl never.
Arguments Number.sub : simpl never.
Arguments Number.mul : simpl never.

(** ** Methods of [GameOfLife] *)

Definition countLiveCells : JS Z :=
  n <- gets gridSize ;;
  for_upto n (λ row count,
    for_upto n (λ col count,
      v <- readCurrent row col ;;
      if truthy v then ret (count + 1) else ret count) count) 0.

Definition initializeGrids : JS unit :=
  a <- newGrid ;; modify (set_currentGrid a) ;;;
  b <- newGrid ;; modify (set_nextGrid b) ;;;
  n <- gets gridSize ;;
  for_upto n (λ row _,
    (l <- newRow ;; a <- gets currentGrid ;; storeRow a row l) ;;;
    (l <- newRow ;; b <- gets nextGrid ;; storeRow b row l) ;;;
    for_upto n (λ col _,
      writeCurrent row col false ;;;
      writeNext row col false) tt) tt.

Definition createDOMGrid : JS unit :=
  modify (set_cells ∅) ;;;
  n <- gets gridSize ;;
  for_upto n (λ row _,
    for_upto n (λ col _,
      modify (λ w, set_cells ({[ (row, col) ]} ∪ cells w) w)) tt) tt.

(** [querySelector] gives [null] when no cell element carries the two
    data attributes; [cellElement.classList] then throws. *)
Definition updateCellDisplay (row col : Z) : JS unit :=
  d <- gets cells ;;
  _v <- readCurrent row col ;;
  if decide ((row, col) ∈ d) then ret tt else throw TypeError.

Definition updateDisplay : JS unit :=
  n <- gets gridSize ;;
  for_upto n (λ row _,
    for_upto n (λ col _, updateCellDisplay row col) tt) tt ;;;
  _live <- countLiveCells ;;
  ret tt.

Definition countLiveNeighbors (row col : Z) : JS Z :=
  foldJS [-1; 0; 1] (λ deltaRow count,
    foldJS [-1; 0; 1] (λ deltaCol count,
      if (deltaRow =? 0) && (deltaCol =? 0) then ret count
      else
        let neighborRow := row + deltaRow in
        let neighborCol := col + deltaCol in
        n <- gets gridSize ;;
        if (0 <=? neighborRow) && (neighborRow <? n) &&
           (0 <=? neighborCol) && (neighborCol <? n)
        then
          v <- readCurrent neighborRow neighborCol ;;
          if truthy v then ret (count + 1) else ret count
        else ret count) count) 0.

Definition calculateNextGeneration : JS unit :=
  n <- gets gridSize ;;
  for_upto n (λ row _,
    for_upto n (λ col _,
      liveNeighbors <- countLiveNeighbors row col ;;
      isAlive <- readCurrent row col ;;
      if truthy isAlive then
        if liveNeighbors <? 2 then writeNext row col false
        else if (liveNeighbors =? 2) || (liveNeighbors =? 3) then writeNext row col true
        else writeNext row col false
      else
        if liveNeighbors =? 3 then writeNext row col true
        else writeNext row col false) tt) tt.

Definition step : JS unit :=
  calculateNextGeneration ;;;
  modify (λ w, set_nextGrid (currentGrid w) (set_currentGrid (nextGrid w) w)) ;;;
  modify (λ w, set_generation (generation w + 1) w) ;;;
  updateDisplay.

Definition start : JS unit :=
  running <- gets isRunning ;;
  if running then ret tt
  else
    modify (set_isRunning true) ;;;
    s <- gets speed ;;
    let interval := Z.max 50 (Number.sub 1000 (Number.mul (Number.sub s 1) 45)) in
    h <- setInterval interval ;;
    modify (set_intervalId (Some h)).

Definition pause : JS unit :=
  running <- gets isRunning ;;
  if negb running then ret tt
  else
    modify (set_isRunning false) ;;;
    id <- gets intervalId ;;
    clearInterval id ;;;
    modify (set_intervalId None).

Definition toggleStartPause : JS unit :=
  running <- gets isRunning ;;
  if running then pause else start.

Definition clear : JS unit :=
  pause ;;;
  initializeGrids ;;;
  modify (set_generation 0) ;;;
  updateDisplay.

(** [coin row col] is the outcome of [Math.random() < 0.3] at the
    iteration for that cell. *)
Definition randomize (coin : Z → Z → bool) : JS unit :=
  pause ;;;
  n <- gets gridSize ;;
  for_upto n (λ row _,
    for_upto n (λ col _, writeCurrent row col (coin row col)) tt) tt ;;;
  modify (set_generation 0) ;;;
  updateDisplay.

Definition setSpeed (newSpeed : Z) : JS unit :=
  modify (set_speed newSpeed) ;;;
  running <- gets isRunning ;;
  if running then pause ;;; start else ret tt.

Definition toggleCell (row col : Z) : JS unit :=
  v <- readCurrent row col ;;
  writeCurrent row col (negb (truthy v)) ;;;
  updateCellDisplay row col.

(** [new GameOfLife(gridSize)] in a freshly loaded page, with an empty
    heap, no cell element and no timer.  The field initialisers come
    first, among them two [[]]; [bindEvents] and [initializeTheme] touch
    only the static elements and the stored theme. *)
Definition blank (size : Z) : World :=
  mkWorld size 1%positive 2%positive false 0 None 5
          {[ 1%positive := ∅; 2%positive := ∅ ]} ∅ 3%positive
          ∅ ∅ 1%positive.

Definition constructor (size : Z) : completion unit * World :=
  (initializeGrids ;;;
   createDOMGrid ;;;
   updateDisplay) (blank size).

(** ** Operations of the engine, and the states they reach *)

Inductive op : Type :=
  | Start
  | Pause
  | ToggleStartPause
  | Step
  | Clear
  | Randomize (coin : Z → Z → bool)
  | SetSpeed (newSpeed : Z)
  | ToggleCell (row col : Z).

Definition run (o : op) : JS unit :=
  match o with
  | Start => start
  | Pause => pause
  | ToggleStartPause => toggleStartPause
  | Step => step
  | Clear => clear
  | Randomize coin => randomize coin
  | SetSpeed s => setSpeed s
  | ToggleCell row col => toggleCell row col
  end.

(** The engine after construction and any sequence of operations; an
    operation that throws leaves the engine in the state it reached. *)
Inductive reachable : World → Prop :=
  | reach_new (size : Z) : reachable (constructor size).2
  | reach_op (w : World) (o : op) : reachable w → reachable (run o w).2.

(** ** The contents of a grid *)

(** The grid array [a] by value: row by row, the cells of the row
    objects it refers to. *)
Definition contents (w : World) (a : positive) : gmap Z (gmap Z bool) :=
  match grids w !! a with
  | Some g => omap (λ l, rows w !! l) g
  | None => ∅
  end.

Definition current (w : World) : gmap Z (gmap Z bool) := contents w (currentGrid w).
Definition scratch (w : World) : gmap Z (gmap Z bool) := contents w (nextGrid w).

(** [g[row][col]] in a grid held by value: [None] when the row or the
    cell is missing. *)
Definition cellAt (g : gmap Z (gmap Z bool)) (row col : Z) : option bool :=
  match g !! row with
  | Some r => r !! col
  | None => None
  end.

(** [g[row][col] = v] on a grid held by value. *)
Definition assign (g : gmap Z (gmap Z bool)) (row col : Z) (v : bool)
  : gmap Z (gmap Z bool) :=
  match g !! row with
  | Some r => <[row := <[col := v]> r]> g
  | None => g
  end.

(** ** The rule and the neighbourhood, as the specification words them *)

Definition inGrid (n row col : Z) : Prop := 0 ≤ row < n ∧ 0 ≤ col < n.

#[global] Instance inGrid_dec n row col : Decision (inGrid n row col).
Proof. unfold inGrid. apply _. Defined.

(** The state of a position of the plane: a position outside the grid
    is dead. *)
Definition aliveAt (n : Z) (g : gmap Z (gmap Z bool)) (row col : Z) : bool :=
  bool_decide (inGrid n row col) && truthy (cellAt g row col).

(** The eight positions around (row, col). *)
Definition adjacent (row col : Z) : list (Z * Z) :=
  [ (row - 1, col - 1); (row - 1, col); (row - 1, col + 1);
    (row, col - 1);                     (row, col + 1);
    (row + 1, col - 1); (row + 1, col); (row + 1, col + 1) ].

Definition liveAmong (n : Z) (g : gmap Z (gmap Z bool)) (ps : list (Z * Z)) : Z :=
  Z.of_nat (length (filter (λ p, aliveAt n g p.1 p.2 = true) ps)).

(** The next state of a cell, from its state and its live neighbours:
    the branches of [calculateNextGeneration]. *)
Definition conway (isAlive : bool) (liveNeighbors : Z) : bool :=
  if isAlive then
    if liveNeighbors <? 2 then false
    else if (liveNeighbors =? 2) || (liveNeighbors =? 3) then true
    else false
  else
    if liveNeighbors =? 3 then true else false.

(** The delay [start] hands to [setInterval], read back from the timer
    it arms. *)
Definition startDelay (w : World) : option Z :=
  match intervalId (start w).2 with
  | Some h => timers (start w).2 !! h
  | None => None
  end.

(** The speeds for which the delay is computed without rounding: every
    intermediate value, [s - 1], [(s - 1) * 45] and [1000 - (s - 1) * 45],
    is then an integer below 2^53 in magnitude. *)
Definition delayExact (s : Z) : Prop := Z.abs (s - 1) * 45 + 1000 < 2 ^ 53.

(** ** Well-formed states *)

Definition hasRow (g : gmap Z (gmap Z bool)) (row : Z) : Prop := is_Some (g !! row).

(** A grid of the engine: exactly the rows 0..n-1, each with at least
    the cells 0..n-1. *)
Definition shaped (n : Z) (g : gmap Z (gmap Z bool)) : Prop :=
  (∀ row, hasRow g row ↔ 0 ≤ row < n) ∧
  (∀ row col, inGrid n row col → is_Some (cellAt g row col)).

(** A grid with no cell outside the n x n square. *)
Definition exact (n : Z) (g : gmap Z (gmap Z bool)) : Prop :=
  ∀ row col, ¬ inGrid n row col → cellAt g row col = None.

(** The row references a grid array holds. *)
Definition refsOf (w : World) (a : positive) : gmap Z positive :=
  default ∅ (grids w !! a).

(** [a] is one of the two buffers. *)
Definition buffer (w : World) (a : positive) : Prop :=
  a = currentGrid w ∨ a = nextGrid w.

(** No array was ever given the reference [nextRef] or a later one. *)
Definition unused (w : World) : Prop :=
  ∀ l, (nextRef w ≤ l)%positive → grids w !! l = None ∧ rows w !! l = None.

(** The two buffers are two arrays, no row object occurs twice in them,
    every reference leads to an object, and [nextRef] is unused. *)
Record heap_ok (w : World) : Prop := mkHeapOk {
  ho_distinct : currentGrid w ≠ nextGrid w;
  ho_current : is_Some (grids w !! currentGrid w);
  ho_next : is_Some (grids w !! nextGrid w);
  ho_apart : ∀ a b r r' l,
    buffer w a → buffer w b →
    refsOf w a !! r = Some l → refsOf w b !! r' = Some l → a = b ∧ r = r';
  ho_alloc : ∀ a r l,
    buffer w a → refsOf w a !! r = Some l → is_Some (rows w !! l);
  ho_fresh : unused w
}.

Definition timers_ok (w : World) : Prop :=
  match intervalId w with
  | Some h => isRunning w = true ∧
              timers w = {[ h := Z.max 50 (Number.sub 1000
                                             (Number.mul (Number.sub (speed w) 1) 45)) ]}
  | None => isRunning w = false ∧ timers w = ∅
  end.

Record wf (w : World) : Prop := mkWf {
  wf_heap : heap_ok w;
  wf_current : shaped (gridSize w) (current w);
  wf_next : shaped (gridSize w) (scratch w);
  wf_cells : ∀ row col, (row, col) ∈ cells w ↔ inGrid (gridSize w) row col;
  wf_timers : timers_ok w
}.

(** ** Auxiliary notions for the loops and the timer *)

(** The cells the nested loops have passed when the counters are at
    (i, j). *)
Definition before (i j row col : Z) : Prop := row < i ∨ (row = i ∧ col < j).

(** The grid [g'] is [g] with the cells the loops have passed at (i, j)
    set to [val]. *)
Definition filledUpTo (n : Z) (val : Z → Z → bool) (i j : Z)
    (g g' : gmap Z (gmap Z bool)) : Prop :=
  (∀ r, hasRow g' r ↔ hasRow g r) ∧
  (∀ r c, cellAt g' r c =
          if decide (inGrid n r c ∧ before i j r c) then Some (val r c)
          else cellAt g r c).

(** The grid [g'] is [g] with every cell of the n x n square set to
    [val]. *)
Definition filled (n : Z) (val : Z → Z → bool)
    (g g' : gmap Z (gmap Z bool)) : Prop :=
  (∀ r, hasRow g' r ↔ hasRow g r) ∧
  (∀ r c, cellAt g' r c =
          if decide (inGrid n r c) then Some (val r c) else cellAt g r c).

(** What [calculateNextGeneration] assigns to the cell (row, col). *)
Definition nextState (w : World) (row col : Z) : bool :=
  conway (truthy (cellAt (current w) row col))
         (liveAmong (gridSize w) (current w) (adjacent row col)).

(** The grid of n x n dead cells and nothing else. *)
Definition dead (n : Z) (g : gmap Z (gmap Z bool)) : Prop :=
  (∀ r, hasRow g r ↔ 0 ≤ r < n) ∧
  (∀ r c, cellAt g r c = if decide (inGrid n r c) then Some false else None).

Definition deadUpTo (n i : Z) (g : gmap Z (gmap Z bool)) : Prop :=
  (∀ r, hasRow g r ↔ 0 ≤ r < i) ∧
  (∀ r c, cellAt g r c = if decide (inGrid n r c ∧ r < i) then Some false else None).

(** States with the same grids, heap, page cells, generation and speed:
    all but the run state and the timers. *)
Definition sameGrids (w w' : World) : Prop :=
  gridSize w' = gridSize w ∧ currentGrid w' = currentGrid w ∧
  nextGrid w' = nextGrid w ∧ grids w' = grids w ∧ rows w' = rows w ∧
  nextRef w' = nextRef w ∧ cells w' = cells w ∧
  generation w' = generation w ∧ speed w' = speed w.

(** The state [pause] leaves. *)
Definition paused (w : World) : World := (pause w).2.

(** [pause] disarms the one timer whatever its delay: [setSpeed] pauses
    after it has stored the new speed. *)
Definition timers_armed (w : World) : Prop :=
  match intervalId w with
  | Some h => isRunning w = true ∧ ∃ d, timers w = {[ h := d ]}
  | None => isRunning w = false ∧ timers w = ∅
  end.

(** States that differ at most in the elements of row objects. *)
Definition sameButRows (w w' : World) : Prop := w' = set_rows (rows w') w.

(** States that differ at most in the heap and in which arrays are the
    two buffers. *)
Definition withHeap (w : World) (a b : positive)
    (gs : gmap positive (gmap Z positive)) (rs : gmap positive (gmap Z bool))
    (nr : positive) : World :=
  mkWorld (gridSize w) a b (isRunning w) (generation w) (intervalId w) (speed w)
          gs rs nr (cells w) (timers w) (nextTimer w).

Definition sameButHeap (w w' : World) : Prop :=
  w' = withHeap w (currentGrid w') (nextGrid w') (grids w') (rows w') (nextRef w').

(** ** The handlers [bindEvents] and [createDOMGrid] register *)

(** Click on the Step button: a manual step, only while not running. *)
Definition stepBtn_click : JS unit :=
  running <- gets isRunning ;;
  if negb running then step else ret tt.

(** Input on the speed slider, with [speed] the parsed value; the label
    beside the slider is write-only. *)
Definition speedSlider_input (speed : Z) : JS unit :=
  setSpeed speed.

(** What the page can deliver to the engine: clicks on the four buttons,
    slider input, a click on a cell element, and the firing of a timer
    (whose callback is [step]). *)
Inductive event : Type :=
  | StartPauseClick
  | StepClick
  | ClearClick
  | RandomizeClick (coin : Z → Z → bool)
  | SpeedInput (speed : Z)
  | CellClick (row col : Z)
  | TimerTick (h : positive).

(** A cell listener exists on the elements [createDOMGrid] made, and
    calls [toggleCell] with the coordinates of its element; a timer
    fires only while it is armed.  Elsewhere nothing happens. *)
Definition dispatch (e : event) : JS unit :=
  match e with
  | StartPauseClick => toggleStartPause
  | StepClick => stepBtn_click
  | ClearClick => clear
  | RandomizeClick coin => randomize coin
  | SpeedInput speed => speedSlider_input speed
  | CellClick row col =>
      d <- gets cells ;;
      if decide ((row, col) ∈ d) then toggleCell row col else ret tt
  | TimerTick h =>
      t <- gets timers ;;
      if decide (is_Some (t !! h)) then step else ret tt
  end.

(** The engine as the page drives it. *)
Inductive ui_reachable : World → Prop :=
  | ui_new (size : Z) : ui_reachable (constructor size).2
  | ui_event (w : World) (e : event) : ui_reachable w → ui_reachable (dispatch e w).2.

(** Both buffers hold the cells of the grid and nothing else. *)
Definition tidy (w : World) : Prop :=
  wf w ∧ exact (gridSize w) (current w) ∧ exact (gridSize w) (scratch w).

(** [k] calls of [step] in a row. *)
Fixpoint steps (k : nat) : JS unit :=
  match k with
  | O => ret tt
  | S k' => step ;;; steps k'
  end.

(** ** Populations *)

(** The positions of the n x n grid, row by row. *)
Definition gridCells (n : Z) : list (Z * Z) :=
  row ← seqZ 0 n; (λ col, (row, col)) <$> seqZ 0 n.

(** The number of alive cells of the grid. *)
Definition population (n : Z) (g : gmap Z (gmap Z bool)) : Z :=
  liveAmong n g (gridCells n).

(** The 2 x 2 block with upper left corner (r, c). *)
Definition inBlock (r c row col : Z) : Prop :=
  r ≤ row ≤ r + 1 ∧ c ≤ col ≤ c + 1.

#[global] Instance inBlock_dec r c row col : Decision (inBlock r c row col).
Proof. unfold inBlock. apply _. Defined.

(** The three cells in a row, and in a column, centred at (r, c). *)
Definition inHBar (r c row col : Z) : Prop :=
  row = r ∧ c - 1 ≤ col ≤ c + 1.

Definition inVBar (r c row col : Z) : Prop :=
  col = c ∧ r - 1 ≤ row ≤ r + 1.

#[global] Instance inHBar_dec r c row col : Decision (inHBar r c row col).
Proof. unfold inHBar. apply _. Defined.

#[global] Instance inVBar_dec r c row col : Decision (inVBar r c row col).
Proof. unfold inVBar. apply _. Defined.

(** ** The theme of the page *)

(** What [setTheme] reads and writes: the [data-theme] attribute of the
    body, the texts of the icon and of the label inside the theme toggle,
    and the item [gameOfLifeTheme] of the local storage.  [None] is a
    missing attribute or item ([null]). *)
Record ThemePage : Type := mkThemePage {
  dataTheme : option string;
  themeIcon : string;
  themeText : string;
  savedTheme : option string
}.

Definition setTheme (theme : string) (p : ThemePage) : ThemePage :=
  let p' :=
    if decide (theme = "dark") then
      mkThemePage (Some "dark") "☀️" "Light Mode" (savedTheme p)
    else
      mkThemePage None "🌙" "Dark Mode" (savedTheme p) in
  mkThemePage (dataTheme p') (themeIcon p') (themeText p') (Some theme).

(** [v || d] on a string or [null]: [null] and the empty string are
    falsy. *)
Definition orDefault (v : option string) (d : string) : string :=
  match v with
  | Some s => if decide (s = "") then d else s
  | None => d
  end.

Definition initializeTheme (p : ThemePage) : ThemePage :=
  let saved := orDefault (savedTheme p) "light" in
  setTheme saved p.

Definition toggleTheme (p : ThemePage) : ThemePage :=
  let currentTheme := dataTheme p in
  let newTheme := if decide (currentTheme = Some "dark") then "light" else "dark" in
  setTheme newTheme p.

(** ** Reasoning about method bodies *)

Lemma bind_normal {A B} (m : JS A) (k : A → JS B) w a w' :
  m w = (Normal a, w') → bind m k w = k a w'.
Proof. intros H. unfold bind. by rewrite H. Qed.

Lemma bind_throw {A B} (m : JS A) (k : A → JS B) w e w' :
  m w = (Throw e, w') → bind m k w = (Throw e, w').
Proof. intros H. unfold bind. by rewrite H. Qed.

Lemma foldJS_seqZ_inv {A} (I : Z → A → World → Prop) (body : Z → A → JS A) (len : nat) :
  ∀ m a w,
    I m a w →
    (∀ i a w, m ≤ i < m + Z.of_nat len → I i a w →
       ∃ a' w', body i a w = (Normal a', w') ∧ I (i + 1) a' w') →
    ∃ a' w', foldJS (seqZ m (Z.of_nat len)) body a w = (Normal a', w')
             ∧ I (m + Z.of_nat len) a' w'.
Proof.
  induction len as [|len IH]; intros m a w H0 Hbody.
  - exists a, w. rewrite Z.add_0_r. by split.
  - rewrite seqZ_cons by lia. cbn [foldJS].
    destruct (Hbody m a w) as (a1 & w1 & Hb & H1); [lia | done |].
    rewrite (bind_normal _ _ _ _ _ Hb).
    replace (Z.pred (Z.of_nat (S len))) with (Z.of_nat len) by lia.
    destruct (IH (Z.succ m) a1 w1) as (a2 & w2 & Hf & H2).
    + by replace (Z.succ m) with (m + 1) by lia.
    + intros i a' w' Hi. apply Hbody. lia.
    + exists a2, w2. split; [done |].
      by replace (m + Z.of_nat (S len)) with (Z.succ m + Z.of_nat len) by lia.
Qed.

(** The loop rule: an invariant indexed by the counter. *)
Lemma for_upto_inv {A} (I : Z → A → World → Prop) (n : Z) (body : Z → A → JS A) a w :
  I 0 a w →
  (∀ i a w, 0 ≤ i < n → I i a w →
     ∃ a' w', body i a w = (Normal a', w') ∧ I (i + 1) a' w') →
  ∃ a' w', for_upto n body a w = (Normal a', w') ∧ I (Z.max 0 n) a' w'.
Proof.
  intros H0 Hbody. unfold for_upto.
  destruct (decide (n ≤ 0)) as [Hn|Hn].
  - rewrite seqZ_nil by done. exists a, w.
    replace (Z.max 0 n) with 0 by lia. by split.
  - destruct (foldJS_seqZ_inv I body (Z.to_nat n) 0 a w) as (a' & w' & Hf & HI);
      [done | intros; apply Hbody; [lia | done] |].
    rewrite Z2Nat.id in Hf, HI by lia.
    exists a', w'. split; [done |].
    by replace (Z.max 0 n) with (0 + n) by lia.
Qed.

(** A loop whose body leaves the state alone. *)
Lemma for_upto_pure (n : Z) (body : Z → unit → JS unit) w :
  (∀ i, 0 ≤ i < n → body i tt w = (Normal tt, w)) →
  for_upto n body tt w = (Normal tt, w).
Proof.
  intros Hbody.
  destruct (for_upto_inv (λ _ _ w', w' = w) n body tt w) as ([] & w' & Hf & ->);
    [done | | done].
  intros i [] ? Hi ->. exists tt, w. split; [by apply Hbody | done].
Qed.

(** ** Grids held by value *)

Lemma assign_spec g row col v :
  hasRow g row →
  (∀ r c, cellAt (assign g row col v) r c =
          if decide (r = row ∧ c = col) then Some v else cellAt g r c)
  ∧ (∀ r, hasRow (assign g row col v) r ↔ hasRow g r).
Proof.
  intros [rw Hrw]. unfold assign. rewrite Hrw. split.
  - intros r c. unfold cellAt.
    destruct (decide (r = row)) as [->|Hr].
    + rewrite lookup_insert_eq, Hrw.
      destruct (decide (c = col)) as [->|Hc].
      * rewrite lookup_insert_eq. by rewrite decide_True.
      * rewrite lookup_insert_ne by done. rewrite decide_False; [done | tauto].
    + rewrite lookup_insert_ne by done. rewrite decide_False; [done | tauto].
  - intros r. unfold hasRow. destruct (decide (r = row)) as [->|Hr].
    + rewrite lookup_insert_eq, Hrw. split; eauto.
    + by rewrite lookup_insert_ne.
Qed.

(** Two grids with the same rows and the same cells are the same. *)
Lemma grid_ext (g1 g2 : gmap Z (gmap Z bool)) :
  (∀ r, hasRow g1 r ↔ hasRow g2 r) →
  (∀ r c, cellAt g1 r c = cellAt g2 r c) →
  g1 = g2.
Proof.
  intros Hrows Hcells. apply map_eq. intros r.
  specialize (Hrows r). unfold hasRow in Hrows.
  destruct (g1 !! r) as [r1|] eqn:E1, (g2 !! r) as [r2|] eqn:E2.
  - f_equal. apply map_eq. intros c.
    specialize (Hcells r c). unfold cellAt in Hcells. by rewrite E1, E2 in Hcells.
  - destruct Hrows as [H _]. destruct H as [? ?]; [eauto | done].
  - destruct Hrows as [_ H]. destruct H as [? ?]; [eauto | done].
  - done.
Qed.

Lemma shaped_hasRow n g row col :
  shaped n g → inGrid n row col → hasRow g row.
Proof. intros [Hrows _] [Hr _]. by apply Hrows. Qed.

(** ** The heap *)

Lemma rowOf_Some w a row l r :
  rowOf w a row = Some (l, r) ↔
  ∃ g, grids w !! a = Some g ∧ g !! row = Some l ∧ rows w !! l = Some r.
Proof.
  unfold rowOf. split.
  - destruct (grids w !! a) as [g|]; [| done].
    destruct (g !! row) as [l'|] eqn:El; [| done].
    destruct (rows w !! l') as [r'|] eqn:Er; [| done].
    intros [= -> ->]. eauto.
  - intros (g & -> & -> & ->). done.
Qed.

Lemma contents_lookup w a row :
  contents w a !! row = snd <$> rowOf w a row.
Proof.
  unfold contents, rowOf. destruct (grids w !! a) as [g|]; [| done].
  rewrite lookup_omap. destruct (g !! row) as [l|]; [| done]. cbn.
  by destruct (rows w !! l).
Qed.

Lemma hasRow_rowOf w a row :
  hasRow (contents w a) row ↔ is_Some (rowOf w a row).
Proof. unfold hasRow. rewrite contents_lookup. apply fmap_is_Some. Qed.

Lemma readCell_hasRow a row col w :
  hasRow (contents w a) row →
  readCell a row col w = (Normal (cellAt (contents w a) row col), w).
Proof.
  intros H. pose proof H as [[l r] Hlr]%hasRow_rowOf.
  unfold readCell, cellAt. by rewrite contents_lookup, Hlr.
Qed.

Lemma readCell_throw a row col w :
  ¬ hasRow (contents w a) row → readCell a row col w = (Throw TypeError, w).
Proof.
  rewrite hasRow_rowOf. unfold readCell. intros H.
  destruct (rowOf w a row) as [[l r]|]; [exfalso; eauto | done].
Qed.

Lemma writeCell_throw a row col v w :
  ¬ hasRow (contents w a) row → writeCell a row col v w = (Throw TypeError, w).
Proof.
  rewrite hasRow_rowOf. unfold writeCell. intros H.
  destruct (rowOf w a row) as [[l r]|]; [exfalso; eauto | done].
Qed.

Lemma readCurrent_hasRow row col w :
  hasRow (current w) row →
  readCurrent row col w = (Normal (cellAt (current w) row col), w).
Proof. intros H. unfold readCurrent, bind, gets. by apply readCell_hasRow. Qed.

Lemma readCurrent_throw row col w :
  ¬ hasRow (current w) row → readCurrent row col w = (Throw TypeError, w).
Proof. intros H. unfold readCurrent, bind, gets. by apply readCell_throw. Qed.

Lemma heap_ok_ext w w' :
  currentGrid w' = currentGrid w → nextGrid w' = nextGrid w →
  grids w' = grids w → rows w' = rows w → nextRef w' = nextRef w →
  heap_ok w → heap_ok w'.
Proof.
  intros Ec En Eg Er Ef [H1 H2 H3 H4 H5 H6].
  split; unfold refsOf, buffer, unused in *; rewrite ?Ec, ?En, ?Eg, ?Er, ?Ef; done.
Qed.

Lemma heap_ok_swap w :
  heap_ok w → heap_ok (set_nextGrid (currentGrid w) (set_currentGrid (nextGrid w) w)).
Proof.
  intros [H1 H2 H3 H4 H5 H6].
  split; cbn; unfold refsOf, buffer, unused in *; cbn; try done.
  - intros a b r r' l Ha Hb. apply H4; tauto.
  - intros a r l Ha. apply H5. tauto.
Qed.

(** An assignment to a cell of one buffer: seen by value, it is the
    assignment in that buffer and nothing in the other. *)
Lemma writeCell_spec a row col v w :
  heap_ok w → buffer w a →
  hasRow (contents w a) row →
  ∃ rs, writeCell a row col v w = (Normal tt, set_rows rs w) ∧
        contents (set_rows rs w) a = assign (contents w a) row col v ∧
        (∀ b, buffer w b → b ≠ a → contents (set_rows rs w) b = contents w b) ∧
        heap_ok (set_rows rs w).
Proof.
  intros Hok Ha [[l r] Hlr]%hasRow_rowOf.
  unfold writeCell. rewrite Hlr. eexists. split; [done |].
  apply rowOf_Some in Hlr as (g & Hg & Hl & Hr).
  pose proof Hok as [H1 H2 H3 H4 H5 H6].
  assert (refsOf w a = g) as Hrefs by (unfold refsOf; by rewrite Hg).
  split; [| split].
  - unfold contents, assign. cbn [grids rows set_rows]. rewrite Hg.
    rewrite lookup_omap, Hl. cbn. rewrite Hr.
    apply map_eq. intros i. rewrite lookup_omap.
    destruct (decide (i = row)) as [->|Hne].
    + rewrite Hl, lookup_insert_eq. cbn. by rewrite lookup_insert_eq.
    + rewrite lookup_insert_ne, lookup_omap by done.
      destruct (g !! i) as [l'|] eqn:El'; [| done]. cbn.
      rewrite lookup_insert_ne; [done |]. intros <-.
      destruct (H4 a a row i l); [done | done | by rewrite Hrefs.. |]. done.
  - intros b Hb Hne. unfold contents. cbn [grids rows set_rows].
    destruct (grids w !! b) as [gb|] eqn:Egb; [| done].
    apply map_eq. intros i. rewrite !lookup_omap.
    destruct (gb !! i) as [l'|] eqn:El'; [| done]. cbn.
    rewrite lookup_insert_ne; [done |]. intros <-.
    destruct (H4 a b row i l); [done | done | by rewrite Hrefs | | done].
    unfold refsOf. by rewrite Egb.
  - split; unfold unused; cbn [currentGrid nextGrid grids rows nextRef set_rows];
      try done.
    + intros a' r' l' Ha' Hl'. destruct (decide (l' = l)) as [->|?].
      * rewrite lookup_insert_eq. eauto.
      * rewrite lookup_insert_ne by done. by eapply H5.
    + intros l' Hl'. destruct (H6 l' Hl') as [? Hnone]. split; [done |].
      rewrite lookup_insert_ne; [done |]. intros <-. congruence.
Qed.

(** ** [countLiveNeighbors] *)

Lemma liveAmong_nil n g : liveAmong n g [] = 0.
Proof. done. Qed.

Lemma liveAmong_cons n g p ps :
  liveAmong n g (p :: ps) = Z.b2z (aliveAt n g p.1 p.2) + liveAmong n g ps.
Proof.
  unfold liveAmong. rewrite filter_cons.
  destruct (decide (aliveAt n g p.1 p.2 = true)) as [->|H].
  - cbn [length Z.b2z]. lia.
  - apply not_true_is_false in H. rewrite H. cbn [Z.b2z]. lia.
Qed.

Lemma liveAmong_bounds n g ps : 0 ≤ liveAmong n g ps ≤ Z.of_nat (length ps).
Proof.
  induction ps as [|p ps IH].
  - rewrite liveAmong_nil. cbn. lia.
  - rewrite liveAmong_cons. cbn [length].
    destruct (aliveAt n g p.1 p.2); cbn [Z.b2z]; lia.
Qed.

(** A loop that only adds to its counter variable. *)
Lemma foldJS_sum (xs : list Z) (body : Z → Z → JS Z) (f : Z → Z) w :
  (∀ x count, x ∈ xs → body x count w = (Normal (count + f x), w)) →
  ∀ count, foldJS xs body count w = (Normal (count + foldr (λ x s, f x + s) 0 xs), w).
Proof.
  induction xs as [|x xs IH]; intros Hbody count.
  - cbn. unfold ret. do 2 f_equal. lia.
  - cbn [foldJS foldr].
    rewrite (bind_normal _ _ _ _ _ (Hbody x count ltac:(left))).
    rewrite IH by (intros; apply Hbody; by right).
    do 2 f_equal. lia.
Qed.

(** One neighbour: the bounds test, then the read. *)
Lemma probe_spec w r c count :
  shaped (gridSize w) (current w) →
  (n <- gets gridSize ;;
   if (0 <=? r) && (r <? n) && (0 <=? c) && (c <? n)
   then v <- readCurrent r c ;; if truthy v then ret (count + 1) else ret count
   else ret count) w
  = (Normal (count + Z.b2z (aliveAt (gridSize w) (current w) r c)), w).
Proof.
  intros Hs. unfold bind, gets, aliveAt.
  destruct (decide (inGrid (gridSize w) r c)) as [Hin|Hout].
  - rewrite bool_decide_eq_true_2 by done.
    destruct Hin as [[? ?] [? ?]].
    rewrite (proj2 (Z.leb_le 0 r)), (proj2 (Z.ltb_lt r _)),
            (proj2 (Z.leb_le 0 c)), (proj2 (Z.ltb_lt c _)) by done.
    cbn [andb].
    rewrite readCurrent_hasRow by (eapply (shaped_hasRow _ _ r c); [done | by repeat split]).
    destruct (truthy (cellAt (current w) r c)); unfold ret; cbn [Z.b2z];
      do 2 f_equal; lia.
  - rewrite bool_decide_eq_false_2 by done. cbn [andb Z.b2z].
    assert ((0 <=? r) && (r <? gridSize w) && (0 <=? c) && (c <? gridSize w) = false) as ->.
    { apply not_true_is_false. intros H. apply Hout.
      repeat (apply andb_prop in H; destruct H as [H ?]). unfold inGrid. lia. }
    unfold ret. do 2 f_equal. lia.
Qed.

Lemma countLiveNeighbors_spec w row col :
  shaped (gridSize w) (current w) →
  countLiveNeighbors row col w
  = (Normal (liveAmong (gridSize w) (current w) (adjacent row col)), w).
Proof.
  intros Hs. unfold countLiveNeighbors.
  set (f := λ dr dc : Z,
         if (dr =? 0) && (dc =? 0) then 0
         else Z.b2z (aliveAt (gridSize w) (current w) (row + dr) (col + dc))).
  rewrite (foldJS_sum _ _ (λ dr, foldr (λ dc s, f dr dc + s) 0 [-1; 0; 1])).
  - unfold adjacent. rewrite !liveAmong_cons, liveAmong_nil.
    cbn [foldr fst snd]. unfold f. cbn [Z.eqb andb Pos.eqb].
    rewrite !Z.add_0_r. unfold Z.sub. change (- (1)) with (-1). do 2 f_equal. lia.
  - intros dr count _.
    rewrite (foldJS_sum _ _ (f dr)); [done |].
    intros dc count' _. unfold f.
    destruct ((dr =? 0) && (dc =? 0)).
    + unfold ret. do 2 f_equal. lia.
    + by apply probe_spec.
Qed.

(** ** Loops that write every cell of a grid *)

Section fill.
Context (n : Z) (val : Z → Z → bool) (body : Z → Z → JS unit)
        (R : gmap Z (gmap Z bool) → World → Prop).

(** [R g w]: [w] is a state of the loop in which the grid being written
    holds [g].  The body at (row, col) assigns [val row col] to that
    cell of the grid and keeps the rest of [R]. *)
Hypothesis body_spec : ∀ g w row col,
  inGrid n row col → hasRow g row → R g w →
  ∃ w', body row col w = (Normal tt, w') ∧ R (assign g row col (val row col)) w'.

Lemma fill_cell g g' w i j :
  inGrid n i j → hasRow g i → filledUpTo n val i j g g' → R g' w →
  ∃ g'' w', body i j w = (Normal tt, w') ∧ R g'' w'
            ∧ filledUpTo n val i (j + 1) g g''.
Proof.
  intros Hin Hrow [Hrows Hcells] HR.
  assert (hasRow g' i) as Hrow' by (by apply Hrows).
  destruct (body_spec g' w i j Hin Hrow' HR) as (w' & Hb & HR').
  destruct (assign_spec g' i j (val i j) Hrow') as [Hc Hr].
  exists (assign g' i j (val i j)), w'. split; [done |]. split; [done |]. split.
  - intros r. by rewrite Hr.
  - intros r c. rewrite Hc, Hcells. unfold before, inGrid in *.
    repeat case_decide; try done; try (exfalso; lia).
    destruct_and!; by subst.
Qed.

Lemma fill_row g g' w i :
  0 ≤ i < n → hasRow g i → filledUpTo n val i 0 g g' → R g' w →
  ∃ g'' w', for_upto n (λ col _, body i col) tt w = (Normal tt, w')
            ∧ R g'' w' ∧ filledUpTo n val (i + 1) 0 g g''.
Proof.
  intros Hi Hrow H0 HR.
  destruct (for_upto_inv (λ j _ w', ∃ g1, R g1 w' ∧ filledUpTo n val i j g g1)
              n (λ col _, body i col) tt w) as ([] & w' & Hf & g1 & HR1 & H1).
  - by exists g'.
  - intros j [] w1 Hj (g1 & HR1 & H1).
    destruct (fill_cell g g1 w1 i j) as (g2 & w2 & Hb & HR2 & H2); [done.. |].
    exists tt, w2. split; [done | by exists g2].
  - exists g1, w'. split; [done |]. split; [done |].
    destruct H1 as [Hrows Hcells]. split; [done |].
    intros r c. rewrite Hcells. apply decide_ext.
    unfold before, inGrid. lia.
Qed.

Lemma fill_spec g w :
  (∀ r, 0 ≤ r < n → hasRow g r) → R g w →
  ∃ g' w', for_upto n (λ row _, for_upto n (λ col _, body row col) tt) tt w
           = (Normal tt, w')
           ∧ R g' w' ∧ filled n val g g'.
Proof.
  intros Hrow HR.
  destruct (for_upto_inv (λ i _ w', ∃ g1, R g1 w' ∧ filledUpTo n val i 0 g g1)
              n (λ row _, for_upto n (λ col _, body row col) tt) tt w)
    as ([] & w' & Hf & g1 & HR1 & H1).
  - exists g. split; [done |]. split; [done |].
    intros r c. rewrite decide_False; [done |]. unfold before, inGrid. lia.
  - intros i [] w1 Hi (g1 & HR1 & H1).
    destruct (fill_row g g1 w1 i) as (g2 & w2 & Hb & HR2 & H2);
      [done | by apply Hrow | done | done |].
    exists tt, w2. split; [done | by exists g2].
  - exists g1, w'. split; [done |]. split; [done |].
    destruct H1 as [Hrows Hcells]. split; [done |].
    intros r c. rewrite Hcells. apply decide_ext.
    unfold before, inGrid. lia.
Qed.
End fill.

Lemma filled_shaped n val g g' :
  shaped n g → filled n val g g' → shaped n g'.
Proof.
  intros [Hrows Hcells] [Hr Hc]. split.
  - intros r. by rewrite Hr.
  - intros r c Hin. rewrite Hc, decide_True by done. eauto.
Qed.

(** ** Display refresh and the live-cell count *)

Lemma countLiveCells_inv (P : Z → Prop) w :
  shaped (gridSize w) (current w) →
  P 0 →
  (∀ k row col, inGrid (gridSize w) row col → P k →
     P (k + Z.b2z (truthy (cellAt (current w) row col)))) →
  ∃ k, countLiveCells w = (Normal k, w) ∧ P k.
Proof.
  intros Hs H0 Hstep. unfold countLiveCells.
  rewrite (bind_normal _ _ w (gridSize w) w) by done.
  destruct (for_upto_inv (λ _ k w', w' = w ∧ P k) (gridSize w)
              (λ row count, for_upto (gridSize w) (λ col count,
                 v <- readCurrent row col ;;
                 if truthy v then ret (count + 1) else ret count) count) 0 w)
    as (k & w' & Hf & -> & Hk); [done | | by exists k].
  intros i k ? Hi [-> Hk].
  destruct (for_upto_inv (λ _ k w', w' = w ∧ P k) (gridSize w)
              (λ col count,
                 v <- readCurrent i col ;;
                 if truthy v then ret (count + 1) else ret count) k w)
    as (k' & w' & Hf & -> & Hk'); [done | | by exists k', w].
  intros j k' ? Hj [-> Hk'].
  exists (k' + Z.b2z (truthy (cellAt (current w) i j))), w.
  split; [| split; [done | by apply Hstep]].
  unfold bind.
  rewrite readCurrent_hasRow by (by eapply (shaped_hasRow _ _ i j)).
  destruct (truthy _); unfold ret; cbn [Z.b2z]; do 2 f_equal; lia.
Qed.

Lemma updateCellDisplay_ok w row col :
  hasRow (current w) row → (row, col) ∈ cells w →
  updateCellDisplay row col w = (Normal tt, w).
Proof.
  intros Hrow Hcell. unfold updateCellDisplay, bind, gets.
  rewrite readCurrent_hasRow by done. by rewrite decide_True.
Qed.

Lemma updateCellDisplay_null w row col :
  (row, col) ∉ cells w →
  updateCellDisplay row col w = (Throw TypeError, w).
Proof.
  intros Hcell. unfold updateCellDisplay, bind, gets.
  destruct (decide (hasRow (current w) row)).
  - rewrite readCurrent_hasRow by done. by rewrite decide_False.
  - by rewrite readCurrent_throw.
Qed.

Lemma updateDisplay_ok w :
  shaped (gridSize w) (current w) →
  (∀ row col, inGrid (gridSize w) row col → (row, col) ∈ cells w) →
  updateDisplay w = (Normal tt, w).
Proof.
  intros Hs Hcells. unfold updateDisplay.
  rewrite (bind_normal _ _ w (gridSize w) w) by done.
  rewrite (bind_normal _ _ w tt w).
  - destruct (countLiveCells_inv (λ _, True) w) as (k & Hk & _); [done.. |].
    by rewrite (bind_normal _ _ _ _ _ Hk).
  - apply for_upto_pure. intros i Hi. apply for_upto_pure. intros j Hj.
    apply updateCellDisplay_ok; [by eapply (shaped_hasRow _ _ i j) | by apply Hcells].
Qed.

(** ** [calculateNextGeneration] and [step] *)

Lemma sameButRows_refl w : sameButRows w w.
Proof. unfold sameButRows. by destruct w. Qed.

Lemma sameButRows_set w w' rs :
  sameButRows w w' → sameButRows w (set_rows rs w').
Proof. unfold sameButRows. intros ->. done. Qed.

Lemma sameButRows_eq w w' : sameButRows w w' → w' = set_rows (rows w') w.
Proof. done. Qed.

Lemma sameButRows_trans w w1 w2 :
  sameButRows w w1 → sameButRows w1 w2 → sameButRows w w2.
Proof.
  unfold sameButRows. destruct w, w1, w2. cbn.
  intros [= -> -> -> -> -> -> -> -> -> -> -> ->] [= -> -> -> -> -> -> -> -> -> -> -> ->].
  done.
Qed.

Lemma writeNext_spec row col v w :
  heap_ok w → hasRow (scratch w) row →
  ∃ w', writeNext row col v w = (Normal tt, w') ∧ sameButRows w w' ∧
        scratch w' = assign (scratch w) row col v ∧
        current w' = current w ∧ heap_ok w'.
Proof.
  intros Hok Hrow.
  destruct (writeCell_spec (nextGrid w) row col v w Hok) as (rs & Hw & Ha & Hb & Hok');
    [by right | done |].
  exists (set_rows rs w). split; [done |].
  split; [apply sameButRows_set, sameButRows_refl |]. split; [done |].
  split; [| done]. apply Hb; [by left | apply Hok].
Qed.

Lemma writeCurrent_spec row col v w :
  heap_ok w → hasRow (current w) row →
  ∃ w', writeCurrent row col v w = (Normal tt, w') ∧ sameButRows w w' ∧
        current w' = assign (current w) row col v ∧
        scratch w' = scratch w ∧ heap_ok w'.
Proof.
  intros Hok Hrow.
  destruct (writeCell_spec (currentGrid w) row col v w Hok) as (rs & Hw & Ha & Hb & Hok');
    [by left | done |].
  exists (set_rows rs w). split; [done |].
  split; [apply sameButRows_set, sameButRows_refl |]. split; [done |].
  split; [| done]. apply Hb; [by right |].
  intros E. by apply (ho_distinct w Hok).
Qed.

Lemma calculateNextGeneration_spec w :
  heap_ok w →
  shaped (gridSize w) (current w) →
  shaped (gridSize w) (scratch w) →
  ∃ w', calculateNextGeneration w = (Normal tt, w') ∧
        sameButRows w w' ∧ heap_ok w' ∧ current w' = current w ∧
        filled (gridSize w) (nextState w) (scratch w) (scratch w').
Proof.
  intros Hok Hc Hn. unfold calculateNextGeneration.
  rewrite (bind_normal _ _ w (gridSize w) w) by done.
  pose (R := λ (g : gmap Z (gmap Z bool)) (w' : World),
          sameButRows w w' ∧ heap_ok w' ∧ current w' = current w ∧ scratch w' = g).
  lazymatch goal with
  | |- context [for_upto _ (λ row _, for_upto _ (λ col _, @?b row col) tt) tt _] =>
      destruct (fill_spec (gridSize w) (nextState w) b R)
        with (g := scratch w) (w := w)
        as (g' & w' & Hf & (Hsame & Hok' & Hcur & <-) & Hfill)
  end.
  - intros g w1 row col Hin Hrow (Hsame & Hok1 & Hcur & <-). cbn beta.
    assert (gridSize w1 = gridSize w) as En
      by (rewrite (sameButRows_eq _ _ Hsame); reflexivity).
    assert (shaped (gridSize w1) (current w1)) as Hc1 by (by rewrite En, Hcur).
    rewrite (bind_normal _ _ _ _ _ (countLiveNeighbors_spec w1 row col Hc1)).
    rewrite (bind_normal _ _ _ _ _ (readCurrent_hasRow row col w1
               (shaped_hasRow _ _ row col Hc1 ltac:(by rewrite En)))).
    destruct (writeNext_spec row col (nextState w row col) w1 Hok1 Hrow)
      as (w2 & Hw & Hsame2 & Hscr & Hcur2 & Hok2).
    exists w2. split.
    + rewrite <- Hw. unfold nextState, conway. rewrite En, Hcur.
      repeat (match goal with |- context [if ?b then _ else _] => destruct b end);
        reflexivity.
    + split; [by eapply sameButRows_trans |].
      split; [done | split; [congruence | done]].
  - intros r Hr. by apply Hn.
  - split; [apply sameButRows_refl | done].
  - by exists w'.
Qed.

Lemma step_spec w :
  heap_ok w →
  shaped (gridSize w) (current w) →
  shaped (gridSize w) (scratch w) →
  (∀ row col, inGrid (gridSize w) row col → (row, col) ∈ cells w) →
  ∃ w', step w = (Normal tt, w') ∧
        w' = set_generation (generation w + 1)
               (set_nextGrid (currentGrid w)
                  (set_currentGrid (nextGrid w) (set_rows (rows w') w))) ∧
        heap_ok w' ∧ scratch w' = current w ∧
        filled (gridSize w) (nextState w) (scratch w) (current w').
Proof.
  intros Hok Hc Hn Hcells.
  destruct (calculateNextGeneration_spec w Hok Hc Hn)
    as (w1 & Hcalc & Hsame%sameButRows_eq & Hok1 & Hcur & Hfill).
  set (w' := set_generation (generation w + 1)
               (set_nextGrid (currentGrid w)
                  (set_currentGrid (nextGrid w) (set_rows (rows w1) w)))).
  assert (step w = (Normal tt, w')) as Hstep.
  { unfold step. rewrite (bind_normal _ _ _ _ _ Hcalc).
    unfold bind at 1. unfold modify at 1. unfold bind at 1. unfold modify at 1.
    replace (set_generation _ _) with w' by (subst w'; rewrite Hsame; reflexivity).
    apply updateDisplay_ok.
    - change (shaped (gridSize w) (scratch (set_rows (rows w1) w))).
      rewrite <- Hsame. by eapply filled_shaped.
    - done. }
  exists w'. split; [done |]. split; [done |].
  assert (heap_ok (set_nextGrid (currentGrid w1) (set_currentGrid (nextGrid w1) w1)))
    as Hok' by (by apply heap_ok_swap).
  split; [| split].
  - eapply heap_ok_ext; [.. | exact Hok']; rewrite Hsame; reflexivity.
  - change (current (set_rows (rows w1) w) = current w). by rewrite <- Hsame.
  - change (filled (gridSize w) (nextState w) (scratch w) (scratch (set_rows (rows w1) w))).
    by rewrite <- Hsame.
Qed.

(** ** [initializeGrids] and [createDOMGrid] *)

Lemma dead_shaped n g : dead n g → shaped n g.
Proof.
  intros [Hr Hc]. split; [done |].
  intros r c Hin. rewrite Hc, decide_True by done. eauto.
Qed.

Lemma dead_exact n g : dead n g → exact n g.
Proof. intros [_ Hc] r c Hout. by rewrite Hc, decide_False. Qed.

Lemma sameButHeap_eq w w' :
  sameButHeap w w' →
  w' = withHeap w (currentGrid w') (nextGrid w') (grids w') (rows w') (nextRef w').
Proof. done. Qed.

Lemma sameButHeap_trans w w1 w2 :
  sameButHeap w w1 → sameButHeap w1 w2 → sameButHeap w w2.
Proof.
  unfold sameButHeap, withHeap. destruct w, w1, w2. cbn.
  intros [= -> -> -> -> -> -> -> ->] [= -> -> -> -> -> -> -> ->].
  done.
Qed.

Lemma sameButRows_sameButHeap w w' : sameButRows w w' → sameButHeap w w'.
Proof. unfold sameButRows, sameButHeap. intros ->. done. Qed.

(** Two fresh buffers: what the first four statements of
    [initializeGrids] leave. *)
Lemma fresh_buffers_ok w :
  unused w →
  let a := nextRef w in
  let w' := withHeap w a (Pos.succ a)
              (<[Pos.succ a := ∅]> (<[a := ∅]> (grids w))) (rows w)
              (Pos.succ (Pos.succ a)) in
  heap_ok w' ∧ current w' = ∅ ∧ scratch w' = ∅.
Proof.
  intros Hun a w'. split; [| split].
  - split; unfold unused; cbn.
    + lia.
    + rewrite lookup_insert_ne by lia. rewrite lookup_insert_eq. eauto.
    + rewrite lookup_insert_eq. eauto.
    + unfold buffer, refsOf. cbn. intros x y r r' l Hx Hy.
      assert (∀ z, z = a ∨ z = Pos.succ a →
                   <[Pos.succ a := ∅]> (<[a := ∅]> (grids w)) !! z
                   = Some (∅ : gmap Z positive)) as He.
      { intros z [->| ->]; [rewrite lookup_insert_ne by lia |];
          by rewrite lookup_insert_eq. }
      rewrite (He x Hx). cbn. by rewrite lookup_empty.
    + unfold buffer, refsOf. cbn. intros x r l Hx.
      assert (<[Pos.succ a := ∅]> (<[a := ∅]> (grids w)) !! x
              = Some (∅ : gmap Z positive)) as ->.
      { destruct Hx as [->| ->]; [rewrite lookup_insert_ne by lia |];
          by rewrite lookup_insert_eq. }
      cbn. by rewrite lookup_empty.
    + intros l Hl. destruct (Hun l) as [Hg Hr]; [subst a; lia |].
      split; [| done]. rewrite !lookup_insert_ne by (subst a; lia). done.
  - unfold current, contents. cbn.
    rewrite lookup_insert_ne by lia. rewrite lookup_insert_eq. apply omap_empty.
  - unfold scratch, contents. cbn. rewrite lookup_insert_eq. apply omap_empty.
Qed.

(** [a[i] = []] on one of the buffers: a fresh, empty row. *)
Lemma addRow_spec a i w :
  heap_ok w → buffer w a →
  ∃ w', (l <- newRow ;; storeRow a i l) w = (Normal tt, w') ∧
        sameButHeap w w' ∧
        currentGrid w' = currentGrid w ∧ nextGrid w' = nextGrid w ∧
        heap_ok w' ∧
        contents w' a = <[i := ∅]> (contents w a) ∧
        (∀ b, buffer w b → b ≠ a → contents w' b = contents w b).
Proof.
  intros Hok Ha. pose proof Hok as [H1 H2 H3 H4 H5 H6].
  assert (is_Some (grids w !! a)) as [g Hg] by (by destruct Ha as [->| ->]).
  set (l := nextRef w).
  assert (rows w !! l = None) as Hl by (apply H6; lia).
  assert (∀ b r x, buffer w b → refsOf w b !! r = Some x → x ≠ l) as Hold.
  { intros b r x Hb Hx ->. destruct (H5 b r l Hb Hx). congruence. }
  assert (refsOf w a = g) as Hrefs by (unfold refsOf; by rewrite Hg).
  unfold bind, newRow, storeRow. cbn [grids set_rows set_nextRef]. rewrite Hg.
  eexists. split; [done |]. cbn.
  split; [done |]. split; [done |]. split; [done |]. split; [| split].
  - split; unfold buffer, refsOf, unused in *; cbn.
    + done.
    + destruct (decide (currentGrid w = a)) as [->|?];
        [rewrite lookup_insert_eq; eauto | by rewrite lookup_insert_ne].
    + destruct (decide (nextGrid w = a)) as [->|?];
        [rewrite lookup_insert_eq; eauto | by rewrite lookup_insert_ne].
    + intros x y r r' z Hx Hy Hxr Hyr.
      assert (∀ b s, buffer w b →
                default ∅ (<[a := <[i := l]> g]> (grids w) !! b) !! s = Some z →
                (z = l ∧ b = a ∧ s = i) ∨ (z ≠ l ∧ refsOf w b !! s = Some z)) as Hcase.
      { intros b s Hb. unfold refsOf. destruct (decide (b = a)) as [->|Hne].
        - rewrite lookup_insert_eq, Hg. cbn.
          destruct (decide (s = i)) as [->|?].
          + rewrite lookup_insert_eq. intros [= <-]. by left.
          + rewrite lookup_insert_ne by done. intros Hs. right.
            split; [| done]. eapply (Hold a s); [done |]. by rewrite Hrefs.
        - rewrite lookup_insert_ne by done. intros Hs. right.
          split; [| done]. by eapply (Hold b s). }
      destruct (Hcase x r Hx Hxr) as [(-> & -> & ->)|[Hz Hxr']];
        destruct (Hcase y r' Hy Hyr) as [(? & -> & ->)|[Hz' Hyr']];
        try done.
      by eapply H4.
    + intros x r z Hx Hz. destruct (decide (z = l)) as [->|Hne].
      * rewrite lookup_insert_eq. eauto.
      * rewrite lookup_insert_ne by done. apply (H5 x r z Hx).
        unfold refsOf. destruct (decide (x = a)) as [->|Hxa].
        -- rewrite lookup_insert_eq in Hz. cbn in Hz. rewrite Hg. cbn.
           destruct (decide (r = i)) as [->|?].
           ++ rewrite lookup_insert_eq in Hz. injection Hz as Hz'. by symmetry in Hz'.
           ++ by rewrite lookup_insert_ne in Hz.
        -- by rewrite lookup_insert_ne in Hz.
    + intros z Hz. destruct (H6 z) as [Hzg Hzr]; [subst l; lia |].
      split.
      * rewrite lookup_insert_ne; [done |]. intros <-. congruence.
      * rewrite lookup_insert_ne; [done |]. subst l. lia.
  - unfold contents. cbn. rewrite lookup_insert_eq, Hg.
    apply map_eq. intros r. rewrite lookup_omap.
    destruct (decide (r = i)) as [->|Hne].
    + rewrite !lookup_insert_eq. cbn. by rewrite lookup_insert_eq.
    + rewrite !lookup_insert_ne, lookup_omap by done.
      destruct (g !! r) as [x|] eqn:Ex; [| done]. cbn.
      rewrite lookup_insert_ne; [done |]. intros <-.
      eapply (Hold a r l); [done | by rewrite Hrefs | done].
  - intros b Hb Hne. unfold contents. cbn. rewrite lookup_insert_ne by done.
    destruct (grids w !! b) as [gb|] eqn:Egb; [| done].
    apply map_eq. intros r. rewrite !lookup_omap.
    destruct (gb !! r) as [x|] eqn:Ex; [| done]. cbn.
    rewrite lookup_insert_ne; [done |]. intros <-.
    eapply (Hold b r l); [done | | done]. unfold refsOf. by rewrite Egb.
Qed.

Lemma deadUpTo_newRow n i g :
  0 ≤ i → deadUpTo n i g →
  (∀ r, hasRow (<[i := ∅]> g) r ↔ 0 ≤ r < i + 1) ∧
  (∀ r c, cellAt (<[i := ∅]> g) r c = cellAt g r c).
Proof.
  intros Hi [Hr Hc]. split.
  - intros r. unfold hasRow. destruct (decide (r = i)) as [->|Hne].
    + rewrite lookup_insert_eq. split; [lia | eauto].
    + rewrite lookup_insert_ne by done. fold (hasRow g r). rewrite Hr. lia.
  - intros r c. unfold cellAt. destruct (decide (r = i)) as [->|Hne].
    + rewrite lookup_insert_eq, lookup_empty.
      destruct (g !! i) eqn:E; [| done].
      assert (hasRow g i) as Hi' by (unfold hasRow; eauto).
      apply Hr in Hi'. lia.
    + by rewrite lookup_insert_ne.
Qed.

(** One turn of the outer loop of [initializeGrids]: a fresh row in each
    buffer, then every cell of the two rows dead. *)
Lemma initializeGrids_row n i w0 w :
  0 ≤ i < n →
  sameButHeap w0 w → heap_ok w →
  current w = scratch w → deadUpTo n i (current w) →
  ∃ w',
    ((l <- newRow ;; a <- gets currentGrid ;; storeRow a i l) ;;;
     (l <- newRow ;; b <- gets nextGrid ;; storeRow b i l) ;;;
     for_upto n (λ col _,
       writeCurrent i col false ;;;
       writeNext i col false) tt) w = (Normal tt, w') ∧
    sameButHeap w0 w' ∧ heap_ok w' ∧
    current w' = scratch w' ∧ deadUpTo n (i + 1) (current w').
Proof.
  intros Hi Hsame Hok Heq Hdead.
  destruct (addRow_spec (currentGrid w) i w Hok) as (w1 & H1 & S1 & C1 & N1 & Ok1 & A1 & B1);
    [by left |].
  destruct (addRow_spec (nextGrid w1) i w1 Ok1) as (w2 & H2 & S2 & C2 & N2 & Ok2 & A2 & B2);
    [by right |].
  assert (current w2 = <[i := ∅]> (current w)) as Hcur2.
  { unfold current. rewrite C2, C1. rewrite B2; [done | | ].
    - unfold buffer. left. by rewrite C1.
    - rewrite <- C1. apply Ok1. }
  assert (scratch w2 = <[i := ∅]> (current w)) as Hscr2.
  { unfold scratch. rewrite N2, A2. rewrite N1. rewrite B1; [by rewrite Heq | by right |].
    intros E. by apply (ho_distinct w Hok). }
  rewrite (bind_normal _ _ w tt w1).
  2:{ rewrite <- H1. unfold bind, newRow, gets. done. }
  rewrite (bind_normal _ _ w1 tt w2).
  2:{ rewrite <- H2. unfold bind, newRow, gets. done. }
  destruct (deadUpTo_newRow n i (current w)) as [Hr1 Hc1]; [lia | done |].
  destruct Hdead as [Hr Hc].
  pose (R := λ (g : gmap Z (gmap Z bool)) (w' : World),
          sameButHeap w0 w' ∧ heap_ok w' ∧ current w' = g ∧ scratch w' = g).
  destruct (fill_row n (λ _ _, false)
              (λ row col, writeCurrent row col false ;;; writeNext row col false) R)
    with (g := <[i := ∅]> (current w)) (g' := <[i := ∅]> (current w)) (w := w2) (i := i)
    as (g3 & w3 & Hb & (S3 & Ok3 & Hcur3 & Hscr3) & [Hr3 Hc3]).
  - intros g wa row col _ Hrow (Sa & Oka & Hca & Hsa).
    destruct (writeCurrent_spec row col false wa Oka) as (wb & Hwb & Sb & Hcb & Hsb & Okb);
      [by rewrite Hca |].
    destruct (writeNext_spec row col false wb Okb) as (wc & Hwc & Sc & Hsc & Hcc & Okc);
      [by rewrite Hsb, Hsa |].
    exists wc. split; [by rewrite (bind_normal _ _ _ _ _ Hwb) |].
    split.
    { eapply sameButHeap_trans; [exact Sa |].
      apply sameButRows_sameButHeap. by eapply sameButRows_trans. }
    split; [done |]. split; [by rewrite Hcc, Hcb, Hca |].
    by rewrite Hsc, Hsb, Hsa.
  - done.
  - apply Hr1. lia.
  - split; [done |]. intros r c. rewrite Hc1, Hc.
    unfold before, inGrid. repeat case_decide; try done; exfalso; lia.
  - split; [| split; [done | split; [exact Hcur2 | exact Hscr2]]].
    eapply sameButHeap_trans; [exact Hsame |].
    by eapply sameButHeap_trans.
  - exists w3. split; [done |]. split; [done |]. split; [done |].
    split; [by rewrite Hcur3, Hscr3 |]. rewrite Hcur3. split.
    + intros r. by rewrite Hr3, Hr1.
    + intros r c. rewrite Hc3, Hc1, Hc.
      unfold before, inGrid. repeat case_decide; try done; exfalso; lia.
Qed.

Lemma initializeGrids_spec w :
  unused w →
  ∃ w', initializeGrids w = (Normal tt, w') ∧
        sameButHeap w w' ∧ heap_ok w' ∧
        current w' = scratch w' ∧ dead (gridSize w) (current w').
Proof.
  intros Hun. unfold initializeGrids.
  unfold bind at 1. unfold newGrid at 1. unfold bind at 1. unfold modify at 1.
  unfold bind at 1. unfold newGrid at 1. unfold bind at 1. unfold modify at 1.
  unfold bind at 1. unfold gets at 1.
  cbn [gridSize grids nextRef set_nextRef set_grids set_currentGrid set_nextGrid].
  destruct (fresh_buffers_ok w Hun) as (Hok0 & Hcur0 & Hscr0).
  cbn zeta in Hok0, Hcur0, Hscr0.
  set (n := gridSize w).
  lazymatch goal with
  | |- context [for_upto n ?b tt ?w0] =>
      change w0 with (withHeap w (nextRef w) (Pos.succ (nextRef w))
                        (<[Pos.succ (nextRef w) := ∅]> (<[nextRef w := ∅]> (grids w)))
                        (rows w) (Pos.succ (Pos.succ (nextRef w))));
      set (w0' := withHeap _ _ _ _ _ _) in *;
      destruct (for_upto_inv
                  (λ i _ w', sameButHeap w w' ∧ heap_ok w' ∧
                             current w' = scratch w' ∧ deadUpTo n i (current w'))
                  n b tt w0') as ([] & w' & Hf & S & Ok & Heq & [Hr Hc])
  end.
  - split; [done |]. split; [done |]. split; [by rewrite Hcur0, Hscr0 |].
    rewrite Hcur0. split.
    + intros r. unfold hasRow. rewrite lookup_empty. split; [by intros [? ?] | lia].
    + intros r c. unfold cellAt. rewrite lookup_empty.
      rewrite decide_False; [done |]. unfold inGrid. lia.
  - intros i [] w1 Hi (S & Ok & Heq & Hd).
    destruct (initializeGrids_row n i w w1 Hi S Ok Heq Hd) as (w2 & Hb & ?).
    by exists tt, w2.
  - exists w'. split; [done |]. split; [done |]. split; [done |].
    split; [done |]. split.
    + intros r. rewrite Hr. lia.
    + intros r c. rewrite Hc. apply decide_ext. unfold inGrid. lia.
Qed.

Lemma createDOMGrid_spec w :
  ∃ d, createDOMGrid w = (Normal tt, set_cells d w)
       ∧ ∀ r c, (r, c) ∈ d ↔ inGrid (gridSize w) r c.
Proof.
  unfold createDOMGrid.
  unfold bind at 1. unfold modify at 1. unfold bind at 1. unfold gets at 1.
  cbn [gridSize set_cells]. set (n := gridSize w).
  pose (Inv := λ (i j : Z) (w' : World),
          ∃ d, w' = set_cells d w ∧ ∀ r c, (r, c) ∈ d ↔ inGrid n r c ∧ before i j r c).
  lazymatch goal with
  | |- context [for_upto n ?b tt (set_cells ∅ w)] =>
      destruct (for_upto_inv (λ i _ w', Inv i 0 w') n b tt (set_cells ∅ w))
        as ([] & w' & Hf & d & -> & Hd)
  end.
  - exists ∅. split; [done |]. intros r c. unfold before, inGrid.
    split; [intros H; by apply not_elem_of_empty in H | lia].
  - intros i [] w1 Hi H0.
    lazymatch goal with
    | |- context [for_upto n ?b tt w1] =>
        destruct (for_upto_inv (λ j _ w', Inv i j w') n b tt w1)
          as ([] & w' & Hf & d & -> & Hd); [done | |]
    end.
    + intros j [] ? Hj (d & -> & Hd).
      exists tt, (set_cells ({[(i, j)]} ∪ d) w). split; [done |].
      exists ({[(i, j)]} ∪ d). split; [done |].
      intros r c. rewrite elem_of_union, elem_of_singleton, Hd.
      unfold before, inGrid. split.
      * intros [[= -> ->]|?]; lia.
      * intros [? [?|[-> ?]]]; [right; lia |].
        destruct (decide (c = j)) as [->|?]; [by left | right; lia].
    + exists tt, (set_cells d w). split; [done |]. exists d. split; [done |].
      intros r c. rewrite Hd. unfold before, inGrid. lia.
  - exists d. split; [done |]. intros r c. rewrite Hd. unfold before, inGrid. lia.
Qed.

Lemma blank_unused size : unused (blank size).
Proof.
  intros l Hl. cbn [blank grids rows nextRef] in *. split.
  - rewrite lookup_insert_ne by lia. apply lookup_singleton_ne. lia.
  - apply lookup_empty.
Qed.

Lemma constructor_spec size :
  ∃ w, constructor size = (Normal tt, w) ∧
       gridSize w = size ∧ isRunning w = false ∧ generation w = 0 ∧
       intervalId w = None ∧ speed w = 5 ∧ timers w = ∅ ∧
       heap_ok w ∧ current w = scratch w ∧ dead size (current w) ∧
       ∀ r c, (r, c) ∈ cells w ↔ inGrid size r c.
Proof.
  unfold constructor.
  destruct (initializeGrids_spec (blank size) (blank_unused size))
    as (w1 & Hi & S%sameButHeap_eq & Ok & Heq & Hd).
  rewrite (bind_normal _ _ _ _ _ Hi).
  destruct (createDOMGrid_spec w1) as (d & Hc & Hcells).
  rewrite (bind_normal _ _ _ _ _ Hc).
  assert (gridSize w1 = size) as En by (rewrite S; reflexivity).
  rewrite En in Hcells. cbn [gridSize blank] in Hd.
  exists (set_cells d w1). split.
  { apply updateDisplay_ok.
    - change (shaped (gridSize w1) (current w1)). rewrite En. by apply dead_shaped.
    - intros row col Hin. cbn. apply Hcells. by rewrite <- En. }
  cbn [gridSize isRunning generation intervalId speed timers cells set_cells].
  rewrite S. cbn [gridSize isRunning generation intervalId speed timers withHeap blank].
  repeat (split; [done |]). rewrite <- S.
  split; [by eapply heap_ok_ext; [.. | exact Ok] |].
  split; [done |]. split; [done |]. done.
Qed.

(** ** [start], [pause], [toggleStartPause], [setSpeed] *)

Lemma round_exact z : Z.abs z < 2 ^ 53 → Number.round z = z.
Proof.
  intros H. unfold Number.round. cbv zeta.
  destruct (Z.ltb_spec (Z.abs z) (2 ^ 53)); [done | lia].
Qed.

Lemma delay_exact s :
  delayExact s →
  Number.sub 1000 (Number.mul (Number.sub s 1) 45) = 1000 - (s - 1) * 45.
Proof.
  unfold delayExact, Number.sub, Number.mul. intros H.
  rewrite (round_exact (s - 1)) by lia.
  rewrite (round_exact ((s - 1) * 45)) by lia.
  apply round_exact. lia.
Qed.

Lemma delayExact_supported s : 1 ≤ s ≤ 20 → delayExact s.
Proof. unfold delayExact. lia. Qed.

Lemma start_running w : isRunning w = true → start w = (Normal tt, w).
Proof. intros H. unfold start, bind, gets. by rewrite H. Qed.

Lemma start_stopped w :
  isRunning w = false →
  start w = (Normal tt,
             set_intervalId (Some (nextTimer w))
               (set_timers
                  (<[nextTimer w := Z.max 50 (Number.sub 1000
                                       (Number.mul (Number.sub (speed w) 1) 45))]>
                     (timers w))
                  (Pos.succ (nextTimer w))
                  (set_isRunning true w))).
Proof. intros H. unfold start, bind, gets. by rewrite H. Qed.

Lemma pause_stopped w : isRunning w = false → pause w = (Normal tt, w).
Proof. intros H. unfold pause, bind, gets. by rewrite H. Qed.

Lemma pause_running w :
  isRunning w = true →
  pause w = (Normal tt,
             set_intervalId None
               (set_timers
                  (match intervalId w with
                   | Some h => delete h (timers w)
                   | None => timers w
                   end)
                  (nextTimer w)
                  (set_isRunning false w))).
Proof.
  intros H. unfold pause, bind, gets. rewrite H. cbn.
  unfold clearInterval. by destruct (intervalId w).
Qed.

Lemma timers_ok_running w :
  timers_ok w → isRunning w = true →
  ∃ h, intervalId w = Some h
       ∧ timers w = {[ h := Z.max 50 (Number.sub 1000
                                        (Number.mul (Number.sub (speed w) 1) 45)) ]}.
Proof.
  unfold timers_ok. intros Hok Hrun.
  destruct (intervalId w) as [h|]; [exists h; by destruct Hok |].
  destruct Hok. congruence.
Qed.

Lemma timers_ok_stopped w :
  timers_ok w → isRunning w = false → intervalId w = None ∧ timers w = ∅.
Proof.
  unfold timers_ok. intros Hok Hrun.
  destruct (intervalId w) as [h|]; [destruct Hok; congruence | by destruct Hok].
Qed.

Lemma timers_ok_ext w w' :
  isRunning w' = isRunning w → intervalId w' = intervalId w →
  timers w' = timers w → speed w' = speed w →
  timers_ok w → timers_ok w'.
Proof. unfold timers_ok. by intros -> -> -> ->. Qed.

Lemma pause_paused w : pause w = (Normal tt, paused w).
Proof.
  unfold paused. destruct (isRunning w) eqn:E.
  - by rewrite pause_running.
  - by rewrite pause_stopped.
Qed.

Lemma paused_frame w : sameGrids w (paused w) ∧ isRunning (paused w) = false.
Proof.
  unfold paused, sameGrids. destruct (isRunning w) eqn:E.
  - by rewrite pause_running.
  - by rewrite pause_stopped.
Qed.

Lemma timers_ok_armed w : timers_ok w → timers_armed w.
Proof.
  unfold timers_ok, timers_armed. destruct (intervalId w); [| done].
  intros [? ?]. eauto.
Qed.

Lemma paused_timers_ok w :
  timers_armed w →
  timers_ok (paused w) ∧ intervalId (paused w) = None ∧ timers (paused w) = ∅.
Proof.
  unfold timers_armed, paused. intros Hok. destruct (isRunning w) eqn:E.
  - rewrite pause_running by done. unfold timers_ok. cbn.
    destruct (intervalId w) as [h|].
    + destruct Hok as (_ & d & ->). by rewrite delete_singleton_eq.
    + by destruct Hok.
  - rewrite pause_stopped by done. unfold timers_ok. cbn [snd].
    destruct (intervalId w) as [h|]; destruct Hok as [Hrun Ht]; [congruence | done].
Qed.

Lemma start_frame w : sameGrids w (start w).2 ∧ isRunning (start w).2 = true.
Proof.
  unfold sameGrids. destruct (isRunning w) eqn:E.
  - by rewrite start_running.
  - by rewrite start_stopped.
Qed.

Lemma start_normal w : (start w).1 = Normal tt.
Proof.
  destruct (isRunning w) eqn:E.
  - by rewrite start_running.
  - by rewrite start_stopped.
Qed.

Lemma start_timers_ok w : timers_ok w → timers_ok (start w).2.
Proof.
  intros Hok. destruct (isRunning w) eqn:E.
  - by rewrite start_running.
  - rewrite start_stopped by done.
    destruct (timers_ok_stopped w Hok E) as [Hh Ht].
    unfold timers_ok. cbn. by rewrite Ht, insert_empty.
Qed.

Lemma setSpeed_stopped w s :
  isRunning w = false → setSpeed s w = (Normal tt, set_speed s w).
Proof. intros H. unfold setSpeed, bind, modify, gets. cbn. by rewrite H. Qed.

Lemma setSpeed_running w s :
  isRunning w = true →
  setSpeed s w = start (paused (set_speed s w)).
Proof.
  intros H. unfold setSpeed. unfold bind at 1. unfold modify at 1.
  unfold bind at 1. unfold gets at 1. cbn [isRunning set_speed]. rewrite H.
  by rewrite (bind_normal _ _ _ _ _ (pause_paused _)).
Qed.

Lemma sameGrids_trans w w1 w2 : sameGrids w w1 → sameGrids w1 w2 → sameGrids w w2.
Proof.
  unfold sameGrids.
  intros (? & ? & ? & ? & ? & ? & ? & ? & ?) (? & ? & ? & ? & ? & ? & ? & ? & ?).
  repeat split; congruence.
Qed.

Lemma sameGrids_current w w' : sameGrids w w' → current w' = current w.
Proof.
  intros (_ & Ec & _ & Eg & Er & _). unfold current, contents. by rewrite Ec, Eg, Er.
Qed.

Lemma sameGrids_scratch w w' : sameGrids w w' → scratch w' = scratch w.
Proof.
  intros (_ & _ & En & Eg & Er & _). unfold scratch, contents. by rewrite En, Eg, Er.
Qed.

Lemma sameGrids_heap_ok w w' : sameGrids w w' → heap_ok w → heap_ok w'.
Proof. intros (_ & ? & ? & ? & ? & ? & _). by apply heap_ok_ext. Qed.

(** ** [toggleCell] *)

Lemma toggleCell_row_missing w row col :
  ¬ hasRow (current w) row → toggleCell row col w = (Throw TypeError, w).
Proof.
  intros H. unfold toggleCell. by rewrite (bind_throw _ _ _ _ _ (readCurrent_throw _ _ _ H)).
Qed.

Lemma toggleCell_row_present w row col :
  heap_ok w → hasRow (current w) row →
  ∃ w', toggleCell row col w
        = (if decide ((row, col) ∈ cells w) then Normal tt else Throw TypeError, w')
        ∧ sameButRows w w' ∧ heap_ok w' ∧ scratch w' = scratch w
        ∧ (∀ r, hasRow (current w') r ↔ hasRow (current w) r)
        ∧ (∀ r c, cellAt (current w') r c =
                  if decide (r = row ∧ c = col)
                  then Some (negb (truthy (cellAt (current w) row col)))
                  else cellAt (current w) r c).
Proof.
  intros Hok Hrow.
  destruct (writeCurrent_spec row col
              (negb (truthy (cellAt (current w) row col))) w Hok Hrow)
    as (w' & Hw & Hsame & Hcur & Hscr & Hok').
  destruct (assign_spec (current w) row col
              (negb (truthy (cellAt (current w) row col))) Hrow) as [Hc Hr].
  rewrite <- Hcur in Hc, Hr.
  exists w'. split; [| done].
  unfold toggleCell.
  rewrite (bind_normal _ _ _ _ _ (readCurrent_hasRow row col w Hrow)).
  rewrite (bind_normal _ _ _ _ _ Hw).
  assert (cells w' = cells w) as Ed by (rewrite (sameButRows_eq _ _ Hsame); reflexivity).
  case_decide.
  - apply updateCellDisplay_ok; [by apply Hr | by rewrite Ed].
  - apply updateCellDisplay_null. by rewrite Ed.
Qed.

(** ** [clear] and [randomize] *)

Lemma clear_spec w :
  heap_ok w →
  (∀ row col, inGrid (gridSize w) row col → (row, col) ∈ cells w) →
  ∃ w', clear w = (Normal tt, w') ∧
        sameButHeap (set_generation 0 (paused w)) w' ∧ heap_ok w' ∧
        current w' = scratch w' ∧ dead (gridSize w) (current w').
Proof.
  intros Hok Hcells. unfold clear.
  rewrite (bind_normal _ _ _ _ _ (pause_paused w)).
  destruct (paused_frame w) as [Hsg _].
  pose proof Hsg as (En & _ & _ & _ & _ & _ & Ed & _).
  pose proof (sameGrids_heap_ok _ _ Hsg Hok) as Hokp.
  destruct (initializeGrids_spec (paused w)) as (w1 & Hi & S%sameButHeap_eq & Ok1 & Heq & Hd);
    [exact (ho_fresh _ Hokp) |].
  rewrite (bind_normal _ _ _ _ _ Hi). rewrite En in Hd.
  assert (gridSize w1 = gridSize w) as En1 by (rewrite S; exact En).
  assert (cells w1 = cells w) as Ed1 by (rewrite S; exact Ed).
  exists (set_generation 0 w1). split.
  { unfold bind at 1. unfold modify at 1. apply updateDisplay_ok.
    - change (shaped (gridSize w1) (current w1)). rewrite En1. by apply dead_shaped.
    - intros row col Hin. change (gridSize (set_generation 0 w1)) with (gridSize w1) in Hin.
      change ((row, col) ∈ cells w1). rewrite Ed1. apply Hcells. by rewrite <- En1. }
  split; [unfold sameButHeap; rewrite S at 1; reflexivity |].
  split; [by eapply heap_ok_ext; [.. | exact Ok1] |].
  split; done.
Qed.

Lemma randomize_spec coin w :
  heap_ok w →
  shaped (gridSize w) (current w) →
  (∀ row col, inGrid (gridSize w) row col → (row, col) ∈ cells w) →
  ∃ w', randomize coin w = (Normal tt, w') ∧
        sameButRows (set_generation 0 (paused w)) w' ∧ heap_ok w' ∧
        scratch w' = scratch w ∧
        filled (gridSize w) coin (current w) (current w').
Proof.
  intros Hok Hs Hcells. unfold randomize.
  rewrite (bind_normal _ _ _ _ _ (pause_paused w)).
  destruct (paused_frame w) as [Hsg _].
  pose proof Hsg as (En & _ & _ & _ & _ & _ & Ed & _).
  pose proof (sameGrids_heap_ok _ _ Hsg Hok) as Hokp.
  pose proof (sameGrids_current _ _ Hsg) as Hcp.
  pose proof (sameGrids_scratch _ _ Hsg) as Hsp.
  rewrite (bind_normal _ _ (paused w) (gridSize w) (paused w))
    by (unfold gets; by rewrite En).
  pose (R := λ (g : gmap Z (gmap Z bool)) (w' : World),
          sameButRows (paused w) w' ∧ heap_ok w' ∧ scratch w' = scratch w ∧ current w' = g).
  destruct (fill_spec (gridSize w) coin
              (λ row col, writeCurrent row col (coin row col)) R)
    with (g := current w) (w := paused w)
    as (g' & w1 & Hf & (S1 & Ok1 & Hscr1 & <-) & Hfill).
  - intros g wa row col _ Hrow (Sa & Oka & Hsa & <-).
    destruct (writeCurrent_spec row col (coin row col) wa Oka Hrow)
      as (wb & Hwb & Sb & Hcb & Hsb & Okb).
    exists wb. split; [done |]. split; [by eapply sameButRows_trans |].
    split; [done |]. split; [congruence | done].
  - intros r Hr. by apply Hs.
  - split; [apply sameButRows_refl |]. split; [done |]. split; done.
  - rewrite (bind_normal _ _ _ _ _ Hf).
    pose proof (sameButRows_eq _ _ S1) as E1.
    assert (gridSize w1 = gridSize w) as En1 by (rewrite E1; exact En).
    assert (cells w1 = cells w) as Ed1 by (rewrite E1; exact Ed).
    exists (set_generation 0 w1). split.
    { unfold bind at 1. unfold modify at 1. apply updateDisplay_ok.
      - change (shaped (gridSize w1) (current w1)). rewrite En1.
        by eapply filled_shaped.
      - intros row col Hin.
        change (gridSize (set_generation 0 w1)) with (gridSize w1) in Hin.
        change ((row, col) ∈ cells w1). rewrite Ed1. apply Hcells. by rewrite <- En1. }
    split; [unfold sameButRows; rewrite E1 at 1; reflexivity |].
    split; [by eapply heap_ok_ext; [.. | exact Ok1] |].
    split; done.
Qed.

(** ** Every reachable state is well formed *)

Lemma wf_frame w w' :
  wf w → sameGrids w w' → timers_ok w' → wf w'.
Proof.
  intros [Hh Hc Hn Hd Ht] Hsg Ht'.
  pose proof Hsg as (En & _ & _ & _ & _ & _ & Ed & _).
  split; rewrite ?En, ?Ed, ?(sameGrids_current _ _ Hsg), ?(sameGrids_scratch _ _ Hsg);
    try done.
  by eapply sameGrids_heap_ok.
Qed.

Lemma wf_cells_in w row col :
  wf w → inGrid (gridSize w) row col → (row, col) ∈ cells w.
Proof. intros Hwf Hin. by apply (wf_cells w Hwf). Qed.

Lemma wf_constructor size : wf (constructor size).2.
Proof.
  destruct (constructor_spec size)
    as (w & -> & En & Er & _ & Hid & _ & Ht & Hok & Heq & Hd & Hcells).
  cbn [snd]. split; rewrite ?En; try done.
  - by apply dead_shaped.
  - rewrite <- Heq. by apply dead_shaped.
  - unfold timers_ok. by rewrite Hid.
Qed.

Lemma wf_start w : wf w → wf (start w).2.
Proof.
  intros Hwf. destruct (start_frame w) as [Hsg _].
  apply (wf_frame w); [done.. |]. apply start_timers_ok, Hwf.
Qed.

Lemma wf_paused w : wf w → wf (paused w).
Proof.
  intros Hwf. destruct (paused_frame w) as [Hsg _].
  apply (wf_frame w); [done.. |].
  apply paused_timers_ok, timers_ok_armed, Hwf.
Qed.

Lemma wf_toggleStartPause w : wf w → wf (toggleStartPause w).2.
Proof.
  intros Hwf. unfold toggleStartPause, bind, gets.
  destruct (isRunning w); [| by apply wf_start].
  rewrite pause_paused. by apply wf_paused.
Qed.

Lemma wf_step w : wf w → wf (step w).2.
Proof.
  intros Hwf. pose proof Hwf as [Hh Hc Hn Hd Ht].
  destruct (step_spec w Hh Hc Hn) as (w' & -> & Hw' & Hok' & Hscr & Hfill);
    [intros; by apply wf_cells_in |].
  cbn [snd].
  assert (gridSize w' = gridSize w) as En by (rewrite Hw'; reflexivity).
  assert (cells w' = cells w) as Ed by (rewrite Hw'; reflexivity).
  split; rewrite ?En, ?Ed, ?Hscr; try done.
  - exact (filled_shaped _ _ _ _ Hn Hfill).
  - eapply (timers_ok_ext w); [rewrite Hw'; reflexivity.. | done].
Qed.

Lemma wf_clear w : wf w → wf (clear w).2.
Proof.
  intros Hwf. pose proof Hwf as [Hh _ _ Hd _].
  destruct (clear_spec w Hh) as (w' & -> & S%sameButHeap_eq & Hok' & Heq & Hdead);
    [intros; by apply wf_cells_in |].
  cbn [snd].
  pose proof (wf_paused w Hwf) as [_ _ _ Hdp Htp].
  destruct (paused_frame w) as [(En & _) _].
  assert (gridSize w' = gridSize w) as En' by (rewrite S; exact En).
  assert (cells w' = cells (paused w)) as Ed' by (rewrite S; reflexivity).
  split; rewrite ?En', ?Ed'; try done.
  - by apply dead_shaped.
  - rewrite <- Heq. by apply dead_shaped.
  - by rewrite <- En.
  - eapply (timers_ok_ext (paused w)); [rewrite S; reflexivity.. | done].
Qed.

Lemma wf_randomize coin w : wf w → wf (randomize coin w).2.
Proof.
  intros Hwf. pose proof Hwf as [Hh Hc Hn Hd _].
  destruct (randomize_spec coin w Hh Hc) as (w' & -> & S%sameButRows_eq & Hok' & Hscr & Hfill);
    [intros; by apply wf_cells_in |].
  cbn [snd].
  pose proof (wf_paused w Hwf) as [_ _ _ Hdp Htp].
  destruct (paused_frame w) as [(En & _) _].
  assert (gridSize w' = gridSize w) as En' by (rewrite S; exact En).
  assert (cells w' = cells (paused w)) as Ed' by (rewrite S; reflexivity).
  split; rewrite ?En', ?Ed', ?Hscr; try done.
  - exact (filled_shaped _ _ _ _ Hc Hfill).
  - by rewrite <- En.
  - eapply (timers_ok_ext (paused w)); [rewrite S; reflexivity.. | done].
Qed.

Lemma setSpeed_sameGrids s w : sameGrids (set_speed s w) (setSpeed s w).2.
Proof.
  destruct (isRunning w) eqn:E.
  - rewrite setSpeed_running by done.
    destruct (start_frame (paused (set_speed s w))) as [S1 _].
    destruct (paused_frame (set_speed s w)) as [S2 _].
    by eapply sameGrids_trans.
  - rewrite setSpeed_stopped by done. unfold sameGrids. done.
Qed.

Lemma setSpeed_timers_ok s w : timers_ok w → timers_ok (setSpeed s w).2.
Proof.
  intros Ht. destruct (isRunning w) eqn:E.
  - rewrite setSpeed_running by done.
    apply start_timers_ok, paused_timers_ok.
    pose proof (timers_ok_armed w Ht) as Ha.
    unfold timers_armed in *. by cbn.
  - rewrite setSpeed_stopped by done. cbn [snd].
    destruct (timers_ok_stopped w Ht E) as [Hh Htm].
    unfold timers_ok. cbn. by rewrite Hh.
Qed.

Lemma wf_setSpeed s w : wf w → wf (setSpeed s w).2.
Proof.
  intros Hwf. pose proof Hwf as [Hh Hc Hn Hd Ht].
  pose proof (setSpeed_sameGrids s w) as Hsg.
  pose proof Hsg as (En & _ & _ & _ & _ & _ & Ed & _).
  cbn [gridSize cells set_speed] in En, Ed.
  split; rewrite ?En, ?Ed, ?(sameGrids_current _ _ Hsg), ?(sameGrids_scratch _ _ Hsg);
    try done.
  - by eapply (sameGrids_heap_ok (set_speed s w)); [| eapply heap_ok_ext; [.. | exact Hh]].
  - by apply setSpeed_timers_ok.
Qed.

Lemma wf_toggleCell row col w : wf w → wf (toggleCell row col w).2.
Proof.
  intros Hwf. destruct (decide (hasRow (current w) row)) as [Hrow|Hrow].
  - pose proof Hwf as [Hh [Hrows Hcells] Hn Hd Ht].
    destruct (toggleCell_row_present w row col Hh Hrow)
      as (w' & -> & S%sameButRows_eq & Hok' & Hscr & Hr & Hc).
    cbn [snd].
    assert (gridSize w' = gridSize w) as En by (rewrite S; reflexivity).
    assert (cells w' = cells w) as Ed by (rewrite S; reflexivity).
    split; rewrite ?En, ?Ed, ?Hscr; try done.
    + split.
      * intros r. by rewrite Hr.
      * intros r c Hin. rewrite Hc. case_decide; [eauto | by apply Hcells].
    + eapply (timers_ok_ext w); [rewrite S; reflexivity.. | done].
  - by rewrite toggleCell_row_missing.
Qed.

Lemma run_wf o w : wf w → wf (run o w).2.
Proof.
  intros Hwf. destruct o; cbn [run].
  - by apply wf_start.
  - rewrite pause_paused. by apply wf_paused.
  - by apply wf_toggleStartPause.
  - by apply wf_step.
  - by apply wf_clear.
  - by apply wf_randomize.
  - by apply wf_setSpeed.
  - by apply wf_toggleCell.
Qed.

Lemma reachable_wf w : reachable w → wf w.
Proof.
  induction 1 as [size|w o _ IH]; [apply wf_constructor | by apply run_wf].
Qed.

(** ** The neighbourhood *)

Lemma adjacent_excludes_self row col : (row, col) ∉ adjacent row col.
Proof.
  unfold adjacent. intros H.
  repeat (apply elem_of_cons in H; destruct H as [Heq|H]; [inversion Heq; lia |]).
  by apply elem_of_nil in H.
Qed.

Lemma aliveAt_agree n g1 g2 row col :
  (∀ r c, inGrid n r c → cellAt g1 r c = cellAt g2 r c) →
  aliveAt n g1 row col = aliveAt n g2 row col.
Proof.
  intros H. unfold aliveAt. case_bool_decide; [| done]. by rewrite H.
Qed.

Lemma liveAmong_agree n g1 g2 ps :
  (∀ r c, inGrid n r c → cellAt g1 r c = cellAt g2 r c) →
  liveAmong n g1 ps = liveAmong n g2 ps.
Proof.
  intros H. induction ps as [|p ps IH]; [done |].
  by rewrite !liveAmong_cons, IH, (aliveAt_agree n g1 g2).
Qed.

Lemma nextState_agree w1 w2 row col :
  gridSize w1 = gridSize w2 →
  (∀ r c, inGrid (gridSize w1) r c →
          cellAt (current w1) r c = cellAt (current w2) r c) →
  inGrid (gridSize w1) row col →
  nextState w1 row col = nextState w2 row col.
Proof.
  intros En Hc Hin. unfold nextState.
  rewrite <- En, (Hc row col Hin).
  by rewrite (liveAmong_agree _ (current w1) (current w2)).
Qed.

(** ** The generation counter *)

Lemma run_generation o w :
  wf w →
  generation (run o w).2 =
    match o with
    | Step => generation w + 1
    | Clear | Randomize _ => 0
    | _ => generation w
    end.
Proof.
  intros Hwf. pose proof Hwf as [Hh Hc Hn _ _].
  destruct o as [| | | | |coin|s|row col]; cbn [run].
  - by destruct (start_frame w) as [(_ & _ & _ & _ & _ & _ & _ & ? & _) _].
  - rewrite pause_paused.
    by destruct (paused_frame w) as [(_ & _ & _ & _ & _ & _ & _ & ? & _) _].
  - unfold toggleStartPause, bind, gets. destruct (isRunning w).
    + rewrite pause_paused.
      by destruct (paused_frame w) as [(_ & _ & _ & _ & _ & _ & _ & ? & _) _].
    + by destruct (start_frame w) as [(_ & _ & _ & _ & _ & _ & _ & ? & _) _].
  - destruct (step_spec w Hh Hc Hn) as (w' & -> & -> & _);
      [intros; by apply wf_cells_in | done].
  - destruct (clear_spec w Hh) as (w' & -> & ->%sameButHeap_eq & _);
      [intros; by apply wf_cells_in | done].
  - destruct (randomize_spec coin w Hh Hc) as (w' & -> & ->%sameButRows_eq & _);
      [intros; by apply wf_cells_in | done].
  - by destruct (setSpeed_sameGrids s w) as (_ & _ & _ & _ & _ & _ & _ & ? & _).
  - destruct (decide (hasRow (current w) row)) as [Hrow|Hrow].
    + destruct (toggleCell_row_present w row col Hh Hrow)
        as (w' & -> & ->%sameButRows_eq & _). done.
    + by rewrite toggleCell_row_missing.
Qed.

(** ** Two toggles of one cell *)

Lemma toggleCell_explicit w row col l r :
  rowOf w (currentGrid w) row = Some (l, r) →
  toggleCell row col w
  = (if decide ((row, col) ∈ cells w) then Normal tt else Throw TypeError,
     set_rows (<[l := <[col := negb (truthy (r !! col))]> r]> (rows w)) w).
Proof.
  intros Hlr. unfold toggleCell.
  unfold bind at 1. unfold readCurrent at 1. unfold bind at 1. unfold gets at 1.
  unfold readCell at 1. rewrite Hlr.
  unfold bind at 1. unfold writeCurrent at 1. unfold bind at 1. unfold gets at 1.
  unfold writeCell at 1. rewrite Hlr.
  set (w1 := set_rows _ w).
  assert (hasRow (current w1) row) as Hrow.
  { apply hasRow_rowOf. exists (l, <[col := negb (truthy (r !! col))]> r).
    apply rowOf_Some in Hlr as (g & Hg & Hl & Hr).
    apply rowOf_Some. exists g. subst w1. cbn. by rewrite lookup_insert_eq. }
  case_decide.
  - by apply updateCellDisplay_ok.
  - by apply updateCellDisplay_null.
Qed.

(** ** The claims *)



(** C2. For every cell (row, col) of the grid of a reachable engine,
    [countLiveNeighbors row col] returns an integer between 0 and 8, the
    number of alive cells among the eight positions around (row, col),
    the cell itself excluded, a position outside the grid counting as
    dead; the call changes nothing in the state. *)
Theorem C2_countLiveNeighbors_counts_adjacent (w : World) (row col : Z) :
  reachable w →
  inGrid (gridSize w) row col →
  ∃ k, countLiveNeighbors row col w = (Normal k, w) ∧
       0 ≤ k ≤ 8 ∧
       k = Z.of_nat (length (filter
             (λ p, aliveAt (gridSize w) (current w) p.1 p.2 = true)
             (adjacent row col))) ∧
       length (adjacent row col) = 8%nat ∧
       ((row, col) ∉ adjacent row col) ∧
       (∀ r c, ¬ inGrid (gridSize w) r c →
               aliveAt (gridSize w) (current w) r c = false).
Proof.
  intros Hreach _. pose proof (reachable_wf w Hreach) as [_ Hc _ _ _].
  exists (liveAmong (gridSize w) (current w) (adjacent row col)).
  split; [by apply countLiveNeighbors_spec |]. split.
  { pose proof (liveAmong_bounds (gridSize w) (current w) (adjacent row col)) as H.
    cbn [adjacent length] in H. lia. }
  split; [done |]. split; [done |]. split; [apply adjacent_excludes_self |].
  intros r c Hout. unfold aliveAt. by rewrite bool_decide_eq_false_2.
Qed.

Lemma C2_countLiveNeighbors_counts_adjacent_witness :
  (countLiveNeighbors 0 0 (run (ToggleCell 1 1) (constructor 2).2).2).1 = Normal 1.
Proof.
  destruct (C2_countLiveNeighbors_counts_adjacent
              (run (ToggleCell 1 1) (constructor 2).2).2 0 0)
    as (k & Hk & _ & -> & _).
  - apply reach_op, reach_new.
  - vm_compute. repeat split; discriminate.
  - rewrite Hk. vm_compute. reflexivity.
Defined.

(** C3, as the code has it.  [step] determines the cells of the grid
    from the cells of the grid alone: two reachable engines of the same
    size whose grids hold the same cells (whatever their scratch buffers,
    generation counters, speeds and timers) both complete [step] with the
    same cells in [currentGrid]; and when neither scratch buffer holds an
    element outside the grid, the two resulting [currentGrid] arrays have
    the same contents altogether. *)
Theorem C3_step_deterministic (w1 w2 : World) :
  reachable w1 → reachable w2 →
  gridSize w1 = gridSize w2 →
  (∀ row col, inGrid (gridSize w1) row col →
      cellAt (current w1) row col = cellAt (current w2) row col) →
  (step w1).1 = Normal tt ∧ (step w2).1 = Normal tt ∧
  (∀ row col, inGrid (gridSize w1) row col →
      cellAt (current (step w1).2) row col
      = cellAt (current (step w2).2) row col) ∧
  (exact (gridSize w1) (scratch w1) → exact (gridSize w2) (scratch w2) →
      current (step w1).2 = current (step w2).2).
Proof.
  intros Hr1 Hr2 En Hsame.
  pose proof (reachable_wf w1 Hr1) as Hwf1. pose proof Hwf1 as [Hh1 Hc1 Hn1 _ _].
  pose proof (reachable_wf w2 Hr2) as Hwf2. pose proof Hwf2 as [Hh2 Hc2 Hn2 _ _].
  destruct (step_spec w1 Hh1 Hc1 Hn1) as (w1' & -> & _ & _ & _ & Hrows1 & Hcells1);
    [intros; by apply wf_cells_in |].
  destruct (step_spec w2 Hh2 Hc2 Hn2) as (w2' & -> & _ & _ & _ & Hrows2 & Hcells2);
    [intros; by apply wf_cells_in |].
  cbn [fst snd].
  split; [done |]. split; [done |]. split.
  - intros row col Hin.
    rewrite Hcells1, Hcells2, <- En, !decide_True by done.
    f_equal. by apply nextState_agree.
  - intros Hx1 Hx2. apply grid_ext.
    + intros r. rewrite Hrows1, Hrows2, (proj1 Hn1 r), (proj1 Hn2 r). by rewrite En.
    + intros r c. rewrite Hcells1, Hcells2, <- En.
      case_decide as Hin.
      * f_equal. by apply nextState_agree.
      * rewrite Hx1 by done. rewrite Hx2; [done | by rewrite <- En].
Qed.

Lemma C3_step_deterministic_witness :
  cellAt (current (step (constructor 2).2).2) 0 1
  = cellAt (current
              (step (run Step (run (SetSpeed 9) (constructor 2).2).2).2).2) 0 1.
Proof.
  apply (C3_step_deterministic
           (constructor 2).2
           (run Step (run (SetSpeed 9) (constructor 2).2).2).2).
  - apply reach_new.
  - apply reach_op, reach_op, reach_new.
  - vm_compute. reflexivity.
  - intros row col _. vm_compute (current _). reflexivity.
  - vm_compute. repeat split; discriminate.
Defined.

(** C3 as stated fails: the array [step] makes the new [currentGrid] is
    the old [nextGrid], written over on the grid only.  After
    [toggleCell 0 5] (which throws, having extended row 0) and a [step]
    on a 2 x 2 engine, the stray element sits in [nextGrid] while
    [currentGrid] is what it is on a fresh engine after one [step]; one
    more [step] and the two [currentGrid] arrays differ at index 5 of
    row 0. *)
Lemma C3_step_result_depends_on_nextGrid :
  reachable (run Step (run (ToggleCell 0 5) (constructor 2).2).2).2 ∧
  reachable (run Step (constructor 2).2).2 ∧
  gridSize (run Step (run (ToggleCell 0 5) (constructor 2).2).2).2
  = gridSize (run Step (constructor 2).2).2 ∧
  current (run Step (run (ToggleCell 0 5) (constructor 2).2).2).2
  = current (run Step (constructor 2).2).2 ∧
  (step (run Step (run (ToggleCell 0 5) (constructor 2).2).2).2).1 = Normal tt ∧
  (step (run Step (constructor 2).2).2).1 = Normal tt ∧
  cellAt (current (step (run Step (run (ToggleCell 0 5) (constructor 2).2).2).2).2) 0 5
  = Some true ∧
  cellAt (current (step (run Step (constructor 2).2).2).2) 0 5 = None ∧
  current (step (run Step (run (ToggleCell 0 5) (constructor 2).2).2).2).2
  ≠ current (step (run Step (constructor 2).2).2).2.
Proof.
  split; [do 2 apply reach_op; apply reach_new |].
  split; [apply reach_op, reach_new |].
  do 6 (split; [vm_compute; reflexivity |]).
  intros H. apply (f_equal (λ g, cellAt g 0 5)) in H.
  vm_compute in H. discriminate.
Qed.

(** C4. In every state reachable by any sequence of [start], [pause],
    [toggleStartPause], [step], [clear], [randomize], [setSpeed] and
    [toggleCell]: [isRunning] is true exactly when [intervalId] holds a
    handle; at most one repeating timer is armed, the one [intervalId]
    names when there is one; [start] on a running engine changes nothing
    and arms no second timer; and an operation changes [generation] only
    by adding 1 in [step] or by resetting it to 0 in [clear] and
    [randomize]. *)
Theorem C4_one_timer_and_generation_steps (w : World) :
  reachable w →
  (isRunning w = true ↔ is_Some (intervalId w)) ∧
  (size (timers w) ≤ 1)%nat ∧
  dom (timers w) = match intervalId w with Some h => {[ h ]} | None => ∅ end ∧
  (isRunning w = true → start w = (Normal tt, w)) ∧
  (∀ o, generation (run o w).2 =
          match o with
          | Step => generation w + 1
          | Clear | Randomize _ => 0
          | Start | Pause | ToggleStartPause | SetSpeed _ | ToggleCell _ _ =>
              generation w
          end).
Proof.
  intros Hreach. pose proof (reachable_wf w Hreach) as Hwf.
  pose proof (wf_timers w Hwf) as Ht. unfold timers_ok in Ht.
  repeat split.
  - intros Hrun. destruct (intervalId w); [eauto | destruct Ht; congruence].
  - intros [h Hh]. rewrite Hh in Ht. by destruct Ht.
  - destruct (intervalId w); destruct Ht as [_ ->].
    + by rewrite map_size_singleton.
    + rewrite map_size_empty. lia.
  - destruct (intervalId w); destruct Ht as [_ ->].
    + by rewrite dom_singleton_L.
    + by rewrite dom_empty_L.
  - apply start_running.
  - intros o. by rewrite run_generation.
Qed.

Lemma C4_one_timer_and_generation_steps_witness :
  (size (timers (run Start (run (SetSpeed 7) (run Start (constructor 2).2).2).2).2) ≤ 1)%nat.
Proof.
  apply (C4_one_timer_and_generation_steps
           (run Start (run (SetSpeed 7) (run Start (constructor 2).2).2).2).2).
  apply reach_op, reach_op, reach_op, reach_new.
Defined.

(** C5, as the code has it.  The constructor checks nothing: for every
    integer size it completes normally, and gives an engine of that size
    whose [currentGrid] and [nextGrid] are two arrays that hold exactly
    the cells of the size x size square, all dead (no row and no cell at
    all when size <= 0), with generation 0, not running, no timer,
    speed 5. *)
Theorem C5_constructor_never_fails (size : Z) :
  ∃ w, constructor size = (Normal tt, w) ∧
       gridSize w = size ∧
       currentGrid w ≠ nextGrid w ∧
       (∀ row, hasRow (current w) row ↔ 0 ≤ row < size) ∧
       (∀ row col, cellAt (current w) row col =
                   if decide (inGrid size row col) then Some false else None) ∧
       (∀ row, hasRow (scratch w) row ↔ 0 ≤ row < size) ∧
       (∀ row col, cellAt (scratch w) row col =
                   if decide (inGrid size row col) then Some false else None) ∧
       generation w = 0 ∧ isRunning w = false ∧ intervalId w = None ∧
       timers w = ∅ ∧ speed w = 5.
Proof.
  destruct (constructor_spec size)
    as (w & Hc & En & Er & Hg & Hid & Hs & Ht & Hok & Heq & [Hrows Hcells] & _).
  exists w. rewrite <- Heq.
  split; [done |]. split; [done |]. split; [apply Hok |].
  split; [done |]. split; [done |]. split; [done |]. split; [done |].
  by repeat split.
Qed.

(** C5 as stated fails: construction with size 0, or a negative size,
    does not fail. *)
Lemma C5_constructor_accepts_nonpositive_size :
  (constructor 0).1 = Normal tt ∧ (constructor (-3)).1 = Normal tt ∧
  gridSize (constructor (-3)).2 = -3.
Proof. vm_compute. done. Qed.

(** C6, as the code has it.  [toggleCell] checks no bounds.  In bounds,
    it completes and flips exactly that cell of [currentGrid]: every
    other cell, the scratch buffer, the generation counter, the run
    state, the speed and the timers are as before.  With the row out of
    bounds it throws a [TypeError] and the state is unchanged.  With the
    row in bounds and the column out of bounds it throws a [TypeError]
    too, after an assignment that leaves every cell of the grid, the
    scratch buffer, the generation counter, the run state, the speed and
    the timers as before. *)
Theorem C6_toggleCell_flips_or_throws (w : World) (row col : Z) :
  reachable w →
  (inGrid (gridSize w) row col →
     ∃ w' b, toggleCell row col w = (Normal tt, w') ∧
             cellAt (current w) row col = Some b ∧
             cellAt (current w') row col = Some (negb b) ∧
             (∀ r c, (r, c) ≠ (row, col) →
                     cellAt (current w') r c = cellAt (current w) r c) ∧
             scratch w' = scratch w ∧ sameButRows w w') ∧
  (¬ 0 ≤ row < gridSize w → toggleCell row col w = (Throw TypeError, w)) ∧
  (0 ≤ row < gridSize w → ¬ 0 ≤ col < gridSize w →
     ∃ w', toggleCell row col w = (Throw TypeError, w') ∧
           (∀ r c, inGrid (gridSize w) r c →
                   cellAt (current w') r c = cellAt (current w) r c) ∧
           scratch w' = scratch w ∧ sameButRows w w') ∧
  (∀ w', sameButRows w w' →
         gridSize w' = gridSize w ∧ generation w' = generation w ∧
         isRunning w' = isRunning w ∧ speed w' = speed w ∧
         intervalId w' = intervalId w ∧ timers w' = timers w ∧
         currentGrid w' = currentGrid w ∧ nextGrid w' = nextGrid w).
Proof.
  intros Hreach. pose proof (reachable_wf w Hreach) as Hwf.
  pose proof Hwf as [Hh [Hrows Hcells] _ Hd _].
  split; [| split; [| split]].
  - intros Hin. pose proof Hin as [Hrow _].
    destruct (toggleCell_row_present w row col Hh) as (w' & Ht & S & _ & Hscr & _ & Hc);
      [by apply Hrows |].
    destruct (Hcells row col Hin) as [b Hb].
    exists w', b. rewrite decide_True in Ht by (by apply Hd).
    split; [done |]. split; [done |]. split; [| split; [| done]].
    + rewrite Hc, decide_True by done. by rewrite Hb.
    + intros r c Hne. rewrite Hc, decide_False; [done |].
      intros [-> ->]. done.
  - intros Hrow. apply toggleCell_row_missing. by rewrite Hrows.
  - intros Hrow Hcol.
    destruct (toggleCell_row_present w row col Hh) as (w' & Ht & S & _ & Hscr & _ & Hc);
      [by apply Hrows |].
    exists w'. rewrite decide_False in Ht by (rewrite Hd; unfold inGrid; tauto).
    split; [done |]. split; [| done].
    intros r c Hin. rewrite Hc, decide_False; [done |].
    intros [-> ->]. unfold inGrid in Hin. tauto.
  - intros w' ->%sameButRows_eq. done.
Qed.

Lemma C6_toggleCell_flips_or_throws_witness :
  ∃ w' b, toggleCell 1 2 (constructor 3).2 = (Normal tt, w') ∧
          cellAt (current (constructor 3).2) 1 2 = Some b ∧
          cellAt (current w') 1 2 = Some (negb b) ∧
          (∀ r c, (r, c) ≠ (1, 2) →
                  cellAt (current w') r c = cellAt (current (constructor 3).2) r c) ∧
          scratch w' = scratch (constructor 3).2 ∧
          sameButRows (constructor 3).2 w'.
Proof.
  apply (C6_toggleCell_flips_or_throws (constructor 3).2 1 2).
  - apply reach_new.
  - vm_compute. repeat split; discriminate.
Defined.

(** C6 as stated fails: on a 3 x 3 engine, [toggleCell(0, 3)] has its
    column out of bounds, throws, and has changed [currentGrid]: row 0
    now holds an alive cell at index 3. *)
Lemma C6_toggleCell_out_of_bounds_writes :
  gridSize (constructor 3).2 = 3 ∧
  (toggleCell 0 3 (constructor 3).2).1 = Throw TypeError ∧
  cellAt (current (constructor 3).2) 0 3 = None ∧
  cellAt (current (toggleCell 0 3 (constructor 3).2).2) 0 3 = Some true ∧
  current (toggleCell 0 3 (constructor 3).2).2 ≠ current (constructor 3).2.
Proof.
  repeat split; try (vm_compute; reflexivity).
  intros H. apply (f_equal (λ g, cellAt g 0 3)) in H.
  vm_compute in H. discriminate.
Qed.

(** C7, as the code has it.  [setSpeed] validates nothing: for every
    integer it completes normally and stores it as the speed, leaving the
    grids, the generation counter and the run state as they are.  On an
    engine that is not running it does nothing else.  On a running
    engine it pauses and starts again, so that afterwards exactly one
    timer is armed, the one [intervalId] names, with the delay of the new
    speed: at least 50, and max(50, 1000 - (newSpeed - 1) * 45) whenever
    that is computed without rounding. *)
Theorem C7_setSpeed_stores_and_restarts (w : World) (newSpeed : Z) :
  reachable w →
  ∃ w', setSpeed newSpeed w = (Normal tt, w') ∧
        speed w' = newSpeed ∧
        isRunning w' = isRunning w ∧
        current w' = current w ∧ scratch w' = scratch w ∧
        generation w' = generation w ∧
        (isRunning w = false → w' = set_speed newSpeed w) ∧
        (isRunning w = true →
           w' = (start (pause (set_speed newSpeed w)).2).2 ∧
           ∃ h d, intervalId w' = Some h ∧ timers w' = {[ h := d ]} ∧
                  50 ≤ d ∧
                  (delayExact newSpeed →
                     d = Z.max 50 (1000 - (newSpeed - 1) * 45))).
Proof.
  intros Hreach. pose proof (reachable_wf w Hreach) as Hwf.
  pose proof (setSpeed_sameGrids newSpeed w) as Hsg.
  pose proof (sameGrids_current _ _ Hsg) as Hcur.
  pose proof (sameGrids_scratch _ _ Hsg) as Hscr.
  destruct Hsg as (_ & _ & _ & _ & _ & _ & _ & Hgen & Hsp).
  cbn [generation speed set_speed] in Hgen, Hsp.
  change (current (set_speed newSpeed w)) with (current w) in Hcur.
  change (scratch (set_speed newSpeed w)) with (scratch w) in Hscr.
  pose proof (setSpeed_timers_ok newSpeed w (wf_timers w Hwf)) as Ht.
  exists (setSpeed newSpeed w).2.
  destruct (isRunning w) eqn:E.
  - rewrite (setSpeed_running w newSpeed E) in Ht, Hcur, Hscr, Hgen, Hsp |- *.
    destruct (start_frame (paused (set_speed newSpeed w))) as [_ Hrun].
    split.
    { pose proof (start_normal (paused (set_speed newSpeed w))) as Hn.
      destruct (start (paused (set_speed newSpeed w))) as [c w0].
      cbn in Hn |- *. by rewrite Hn. }
    split; [exact Hsp |]. split; [exact Hrun |]. split; [exact Hcur |].
    split; [exact Hscr |]. split; [exact Hgen |]. split; [done |].
    intros _. split; [done |].
    destruct (timers_ok_running _ Ht Hrun) as (h & Hh & Htm).
    rewrite Hsp in Htm. eexists h, _.
    split; [done |]. split; [exact Htm |]. split; [lia |].
    intros Hx. by rewrite delay_exact.
  - rewrite (setSpeed_stopped w newSpeed E). cbn [fst snd].
    split; [done |]. split; [done |]. split; [done |].
    split; [done |]. split; [done |]. split; [done |]. split; done.
Qed.

Lemma C7_setSpeed_stores_and_restarts_witness :
  ∃ w', setSpeed 12 (run Start (constructor 2).2).2 = (Normal tt, w') ∧
        speed w' = 12 ∧
        isRunning w' = isRunning (run Start (constructor 2).2).2 ∧
        current w' = current (run Start (constructor 2).2).2 ∧
        scratch w' = scratch (run Start (constructor 2).2).2 ∧
        generation w' = generation (run Start (constructor 2).2).2 ∧
        (isRunning (run Start (constructor 2).2).2 = false →
           w' = set_speed 12 (run Start (constructor 2).2).2) ∧
        (isRunning (run Start (constructor 2).2).2 = true →
           w' = (start (pause (set_speed 12 (run Start (constructor 2).2).2)).2).2 ∧
           ∃ h d, intervalId w' = Some h ∧ timers w' = {[ h := d ]} ∧
                  50 ≤ d ∧
                  (delayExact 12 → d = Z.max 50 (1000 - (12 - 1) * 45))).
Proof.
  apply (C7_setSpeed_stores_and_restarts (run Start (constructor 2).2).2 12).
  apply reach_op, reach_new.
Defined.

(** C7 as stated fails: speeds outside 1-20 are neither rejected nor
    clamped; 25, 0 and -7 are stored as they come. *)
Lemma C7_setSpeed_accepts_out_of_range :
  (setSpeed 25 (constructor 2).2).1 = Normal tt ∧
  speed (setSpeed 25 (constructor 2).2).2 = 25 ∧
  (setSpeed 0 (constructor 2).2).1 = Normal tt ∧
  speed (setSpeed 0 (constructor 2).2).2 = 0 ∧
  (setSpeed (-7) (run Start (constructor 2).2).2).1 = Normal tt ∧
  speed (setSpeed (-7) (run Start (constructor 2).2).2).2 = -7.
Proof. vm_compute. done. Qed.

(** C8. After [clear] on any reachable engine, every cell of
    [currentGrid] and of [nextGrid] is dead, [countLiveCells] returns 0,
    the generation is 0, and the engine is not running: its timer, if
    one was armed, is cancelled and no timer is left. *)
Theorem C8_clear_resets (w : World) :
  reachable w →
  ∃ w', clear w = (Normal tt, w') ∧
        (∀ row col, inGrid (gridSize w') row col →
                    cellAt (current w') row col = Some false) ∧
        (∀ row col, inGrid (gridSize w') row col →
                    cellAt (scratch w') row col = Some false) ∧
        countLiveCells w' = (Normal 0, w') ∧
        generation w' = 0 ∧
        isRunning w' = false ∧ intervalId w' = None ∧ timers w' = ∅ ∧
        gridSize w' = gridSize w.
Proof.
  intros Hreach. pose proof (reachable_wf w Hreach) as Hwf.
  destruct (clear_spec w (wf_heap w Hwf)) as (w' & Hclear & S%sameButHeap_eq & _ & Heq & Hg);
    [intros; by apply wf_cells_in |].
  destruct (paused_frame w) as [(En & _) Er].
  destruct (paused_timers_ok w) as (_ & Hid & Htm);
    [apply timers_ok_armed, Hwf |].
  assert (gridSize w' = gridSize w) as En' by (rewrite S; exact En).
  exists w'. split; [exact Hclear |]. rewrite <- Heq, En'.
  assert (∀ row col, inGrid (gridSize w) row col → cellAt (current w') row col = Some false)
    as Hdead.
  { intros row col Hin. destruct Hg as [_ Hc]. by rewrite Hc, decide_True. }
  split; [done |]. split; [done |]. split.
  { destruct (countLiveCells_inv (λ k, k = 0) w') as (k & Hk & ->); [| done | | done].
    - rewrite En'. by apply dead_shaped.
    - rewrite En'. intros k row col Hin ->. by rewrite Hdead. }
  split; [rewrite S; reflexivity |].
  split; [rewrite S; exact Er |].
  split; [rewrite S; exact Hid |].
  split; [rewrite S; exact Htm | done].
Qed.

Lemma C8_clear_resets_witness :
  ∃ w', clear (run Start (run (ToggleCell 0 1) (constructor 2).2).2).2 = (Normal tt, w') ∧
        (∀ row col, inGrid (gridSize w') row col →
                    cellAt (current w') row col = Some false) ∧
        (∀ row col, inGrid (gridSize w') row col →
                    cellAt (scratch w') row col = Some false) ∧
        countLiveCells w' = (Normal 0, w') ∧
        generation w' = 0 ∧
        isRunning w' = false ∧ intervalId w' = None ∧ timers w' = ∅ ∧
        gridSize w' = gridSize (run Start (run (ToggleCell 0 1) (constructor 2).2).2).2.
Proof.
  apply (C8_clear_resets (run Start (run (ToggleCell 0 1) (constructor 2).2).2).2).
  apply reach_op, reach_op, reach_new.
Defined.

Lemma startDelay_stopped w :
  isRunning w = false →
  startDelay w
  = Some (Z.max 50 (Number.sub 1000 (Number.mul (Number.sub (speed w) 1) 45))).
Proof.
  intros H. unfold startDelay. rewrite start_stopped by done. cbn.
  apply lookup_insert_eq.
Qed.

(** C9, as the code has it.  [start] on a stopped engine always arms the
    timer with a delay of at least 50 milliseconds.  For a speed s whose
    delay is computed without rounding (|s - 1| * 45 + 1000 below 2^53,
    which every s in 1..20 satisfies) the delay is
    max(50, 1000 - (s - 1) * 45), and among such speeds a higher speed
    never gives a longer delay. *)
Theorem C9_start_delay_formula (w1 w2 : World) :
  isRunning w1 = false → isRunning w2 = false →
  ∃ d1 d2, startDelay w1 = Some d1 ∧ startDelay w2 = Some d2 ∧
           50 ≤ d1 ∧ 50 ≤ d2 ∧
           (delayExact (speed w1) → d1 = Z.max 50 (1000 - (speed w1 - 1) * 45)) ∧
           (delayExact (speed w2) → d2 = Z.max 50 (1000 - (speed w2 - 1) * 45)) ∧
           (delayExact (speed w1) → delayExact (speed w2) →
              speed w1 ≤ speed w2 → d2 ≤ d1) ∧
           (∀ s, 1 ≤ s ≤ 20 → delayExact s).
Proof.
  intros H1 H2. eexists _, _.
  split; [by apply startDelay_stopped |].
  split; [by apply startDelay_stopped |].
  split; [lia |]. split; [lia |].
  split; [intros Hx; by rewrite delay_exact |].
  split; [intros Hx; by rewrite delay_exact |].
  split; [| apply delayExact_supported].
  intros Hx1 Hx2 Hle. rewrite !delay_exact by done. lia.
Qed.

Lemma C9_start_delay_formula_witness :
  ∃ d1 d2, startDelay (constructor 2).2 = Some d1 ∧
           startDelay (run (SetSpeed 20) (constructor 2).2).2 = Some d2 ∧
           d1 = 820 ∧ d2 = 145 ∧ d2 ≤ d1.
Proof.
  destruct (C9_start_delay_formula
              (constructor 2).2 (run (SetSpeed 20) (constructor 2).2).2)
    as (d1 & d2 & E1 & E2 & _ & _ & X1 & X2 & Hle & Hs).
  - vm_compute. reflexivity.
  - vm_compute. reflexivity.
  - assert (delayExact (speed (constructor 2).2)) as S1
      by (apply Hs; vm_compute; split; discriminate).
    assert (delayExact (speed (run (SetSpeed 20) (constructor 2).2).2)) as S2
      by (apply Hs; vm_compute; split; discriminate).
    exists d1, d2. split; [exact E1 |]. split; [exact E2 |].
    split; [exact (X1 S1) |]. split; [exact (X2 S2) |].
    apply Hle; [exact S1 | exact S2 |]. vm_compute. discriminate.
Defined.

(** C9 as stated fails for a speed of large magnitude, which [setSpeed]
    accepts: the delay is computed in double arithmetic, and at speed
    -300000000000000 the product (s - 1) * 45 = -13500000000000045 is
    rounded to -13500000000000044, so that [start] registers
    13500000000001044 where the formula gives 13500000000001045. *)
Lemma C9_start_delay_is_rounded :
  reachable (run (SetSpeed (-300000000000000)) (constructor 2).2).2 ∧
  isRunning (run (SetSpeed (-300000000000000)) (constructor 2).2).2 = false ∧
  speed (run (SetSpeed (-300000000000000)) (constructor 2).2).2 = -300000000000000 ∧
  startDelay (run (SetSpeed (-300000000000000)) (constructor 2).2).2
  = Some 13500000000001044 ∧
  Z.max 50 (1000 - (-300000000000000 - 1) * 45) = 13500000000001045.
Proof.
  split; [apply reach_op, reach_new |].
  do 3 (split; [vm_compute; reflexivity |]).
  vm_compute. reflexivity.
Qed.

(** C10. For every reachable engine and every cell (row, col) of the
    grid, two [toggleCell row col] in a row both complete and bring the
    engine back to the very state it was in, heap included:
    [currentGrid] has its prior contents; the generation counter, the
    run state, the speed, the timer and the scratch buffer never changed
    in between. *)
Theorem C10_toggleCell_twice_is_identity (w : World) (row col : Z) :
  reachable w →
  inGrid (gridSize w) row col →
  ∃ w1, toggleCell row col w = (Normal tt, w1) ∧
        toggleCell row col w1 = (Normal tt, w) ∧
        generation w1 = generation w ∧ isRunning w1 = isRunning w ∧
        speed w1 = speed w ∧ intervalId w1 = intervalId w ∧
        scratch w1 = scratch w ∧ gridSize w1 = gridSize w.
Proof.
  intros Hreach Hin. pose proof (reachable_wf w Hreach) as Hwf.
  pose proof Hwf as [Hh [Hrows Hcells] _ Hd _]. pose proof Hin as [Hrow _].
  assert (hasRow (current w) row) as [[l r] Hlr]%hasRow_rowOf by (by apply Hrows).
  destruct (Hcells row col Hin) as [b Hb].
  assert (r !! col = Some b) as Hrb.
  { unfold cellAt, current in Hb. by rewrite contents_lookup, Hlr in Hb. }
  pose proof (toggleCell_explicit w row col l r Hlr) as Ht1.
  rewrite decide_True, Hrb in Ht1 by (by apply Hd).
  change (truthy (Some b)) with b in Ht1.
  set (w1 := set_rows (<[l := <[col := negb b]> r]> (rows w)) w) in *.
  assert (rowOf w1 (currentGrid w1) row = Some (l, <[col := negb b]> r)) as Hlr1.
  { apply rowOf_Some in Hlr as (g & Hg & Hl & Hr).
    apply rowOf_Some. exists g. subst w1. cbn. by rewrite lookup_insert_eq. }
  pose proof (toggleCell_explicit w1 row col l _ Hlr1) as Ht2.
  rewrite decide_True in Ht2 by (by apply Hd).
  rewrite lookup_insert_eq in Ht2.
  change (truthy (Some (negb b))) with (negb b) in Ht2.
  rewrite negb_involutive in Ht2.
  exists w1. split; [done |]. split.
  - rewrite Ht2. f_equal. subst w1. cbn [rows set_rows].
    rewrite !insert_insert_eq. rewrite (insert_id r col b Hrb).
    apply rowOf_Some in Hlr as (g & Hg & Hl & Hr).
    rewrite (insert_id (rows w) l r Hr). by destruct w.
  - destruct (toggleCell_row_present w row col Hh) as (w' & Ht & _ & _ & Hscr & _);
      [by apply Hrows |].
    rewrite decide_True in Ht by (by apply Hd).
    rewrite Ht1 in Ht. injection Ht as <-. by repeat split.
Qed.

Lemma C10_toggleCell_twice_is_identity_witness :
  ∃ w1, toggleCell 0 1 (constructor 2).2 = (Normal tt, w1) ∧
        toggleCell 0 1 w1 = (Normal tt, (constructor 2).2) ∧
        generation w1 = generation (constructor 2).2 ∧
        isRunning w1 = isRunning (constructor 2).2 ∧
        speed w1 = speed (constructor 2).2 ∧
        intervalId w1 = intervalId (constructor 2).2 ∧
        scratch w1 = scratch (constructor 2).2 ∧
        gridSize w1 = gridSize (constructor 2).2.
Proof.
  apply (C10_toggleCell_twice_is_identity (constructor 2).2 0 1).
  - apply reach_new.
  - vm_compute. repeat split; discriminate.
Defined.

(** * Further properties of the engine *)

(** ** The live-cell count *)

Lemma liveAmong_app n g ps qs :
  liveAmong n g (ps ++ qs) = liveAmong n g ps + liveAmong n g qs.
Proof.
  induction ps as [|p ps IH]; [by rewrite liveAmong_nil |].
  cbn [app]. rewrite !liveAmong_cons, IH. lia.
Qed.

Lemma liveAmong_ext n g g' ps :
  (∀ p, p ∈ ps → aliveAt n g' p.1 p.2 = aliveAt n g p.1 p.2) →
  liveAmong n g' ps = liveAmong n g ps.
Proof.
  induction ps as [|p ps IH]; intros H; [done |].
  rewrite !liveAmong_cons, IH, H; [done | by left |].
  intros q Hq. apply H. by right.
Qed.

Lemma elem_of_gridCells n row col :
  (row, col) ∈ gridCells n ↔ inGrid n row col.
Proof.
  unfold gridCells, inGrid. rewrite list_elem_of_bind. split.
  - intros (r & Hc & Hr). apply list_elem_of_fmap in Hc as (c & [= -> ->] & Hc).
    apply elem_of_seqZ in Hr, Hc. lia.
  - intros [Hr Hc]. exists row. split.
    + apply list_elem_of_fmap. exists col. split; [done |]. apply elem_of_seqZ. lia.
    + apply elem_of_seqZ. lia.
Qed.

Lemma NoDup_gridCells n : NoDup (gridCells n).
Proof.
  unfold gridCells. apply NoDup_bind.
  - intros r1 r2 p _ _ H1 H2.
    apply list_elem_of_fmap in H1 as (c1 & -> & _).
    apply list_elem_of_fmap in H2 as (c2 & Heq & _). by inversion Heq.
  - intros r _. apply NoDup_fmap_2; [| apply NoDup_seqZ].
    intros c1 c2 [= ->]. done.
  - apply NoDup_seqZ.
Qed.

Lemma length_gridCells n :
  Z.of_nat (length (gridCells n)) = Z.max 0 n * Z.max 0 n.
Proof.
  unfold gridCells.
  assert (∀ rs cs : list Z,
            length (rs ≫= λ row, (λ col, (row, col)) <$> cs)
            = (length rs * length cs)%nat) as H.
  { intros rs cs. induction rs as [|r rs IH]; [done |].
    rewrite bind_cons, length_app, length_fmap, IH. done. }
  rewrite H, length_seqZ. lia.
Qed.

Lemma population_bounds n g : 0 ≤ population n g ≤ Z.max 0 n * Z.max 0 n.
Proof.
  unfold population. rewrite <- length_gridCells. apply liveAmong_bounds.
Qed.

(** The two nested sums of [countLiveCells], as a count over the cells
    of the grid. *)
Lemma sum_population n g (rs cs : list Z) :
  (∀ r c, r ∈ rs → c ∈ cs → inGrid n r c) →
  foldr (λ r s, foldr (λ c s, Z.b2z (truthy (cellAt g r c)) + s) 0 cs + s) 0 rs
  = liveAmong n g (rs ≫= λ row, (λ col, (row, col)) <$> cs).
Proof.
  intros Hin. induction rs as [|r rs IH]; [done |].
  rewrite bind_cons, liveAmong_app. cbn [foldr].
  rewrite IH by (intros; apply Hin; [by right | done]). f_equal.
  assert (∀ c, c ∈ cs → inGrid n r c) as Hr by (intros; apply Hin; [by left | done]).
  clear IH Hin. induction cs as [|c cs IH]; [done |].
  cbn [foldr fmap list_fmap]. rewrite liveAmong_cons. cbn [fst snd].
  rewrite IH by (intros; apply Hr; by right). f_equal.
  unfold aliveAt. rewrite bool_decide_eq_true_2; [done |]. apply Hr. by left.
Qed.

Lemma countLiveCells_spec w :
  shaped (gridSize w) (current w) →
  countLiveCells w = (Normal (population (gridSize w) (current w)), w).
Proof.
  intros Hs. unfold countLiveCells, population, gridCells.
  rewrite (bind_normal _ _ w (gridSize w) w) by done.
  unfold for_upto.
  rewrite (foldJS_sum _ _
             (λ r, foldr (λ c s, Z.b2z (truthy (cellAt (current w) r c)) + s) 0
                         (seqZ 0 (gridSize w)))).
  - rewrite (sum_population (gridSize w)); [done |].
    intros r c Hr%elem_of_seqZ Hc%elem_of_seqZ. unfold inGrid. lia.
  - intros r count Hr%elem_of_seqZ.
    rewrite (foldJS_sum _ _ (λ c, Z.b2z (truthy (cellAt (current w) r c)))); [done |].
    intros c count' Hc%elem_of_seqZ. unfold bind.
    rewrite readCurrent_hasRow
      by (apply (shaped_hasRow _ _ r c Hs); unfold inGrid; lia).
    destruct (truthy _); unfold ret; cbn [Z.b2z]; do 2 f_equal; lia.
Qed.

(** X1. On every reachable engine [countLiveCells] completes, changes
    nothing, and returns the number of alive cells among the positions
    of the n x n grid (each position once), a number between 0 and n^2;
    elements a row may hold outside the grid are not counted. *)
Theorem X1_countLiveCells_counts_the_grid (w : World) :
  reachable w →
  ∃ k, countLiveCells w = (Normal k, w) ∧
       k = Z.of_nat (length (filter
             (λ p, aliveAt (gridSize w) (current w) p.1 p.2 = true)
             (gridCells (gridSize w)))) ∧
       0 ≤ k ≤ Z.max 0 (gridSize w) * Z.max 0 (gridSize w) ∧
       NoDup (gridCells (gridSize w)) ∧
       (∀ row col, (row, col) ∈ gridCells (gridSize w) ↔ inGrid (gridSize w) row col).
Proof.
  intros Hreach. pose proof (reachable_wf w Hreach) as [_ Hc _ _ _].
  exists (population (gridSize w) (current w)).
  split; [by apply countLiveCells_spec |]. split; [done |].
  split; [apply population_bounds |]. split; [apply NoDup_gridCells |].
  intros row col. apply elem_of_gridCells.
Qed.

Lemma X1_countLiveCells_counts_the_grid_witness :
  (countLiveCells (run (ToggleCell 0 2) (run (ToggleCell 1 1) (constructor 2).2).2).2).1
  = Normal 1.
Proof.
  destruct (X1_countLiveCells_counts_the_grid
              (run (ToggleCell 0 2) (run (ToggleCell 1 1) (constructor 2).2).2).2)
    as (k & Hk & -> & _).
  - apply reach_op, reach_op, reach_new.
  - rewrite Hk. vm_compute. reflexivity.
Defined.

Lemma liveAmong_flip n g g' ps x :
  NoDup ps → x ∈ ps →
  (∀ p, p ≠ x → aliveAt n g' p.1 p.2 = aliveAt n g p.1 p.2) →
  liveAmong n g' ps
  = liveAmong n g ps + Z.b2z (aliveAt n g' x.1 x.2) - Z.b2z (aliveAt n g x.1 x.2).
Proof.
  intros Hnd Hx Hrest. induction Hnd as [|p ps Hp Hnd IH]; [by apply elem_of_nil in Hx |].
  rewrite !liveAmong_cons. apply elem_of_cons in Hx as [->|Hx].
  - rewrite (liveAmong_ext n g g' ps); [lia |].
    intros q Hq. apply Hrest. by intros ->.
  - rewrite IH by done. rewrite (Hrest p); [lia |]. by intros ->.
Qed.

(** X2. On a reachable engine, [toggleCell] on a cell of the grid changes
    what [countLiveCells] returns by exactly one: one less when the cell
    was alive, one more when it was dead. *)
Theorem X2_toggleCell_changes_count_by_one (w : World) (row col : Z) :
  reachable w →
  inGrid (gridSize w) row col →
  ∃ w' wasAlive k,
    toggleCell row col w = (Normal tt, w') ∧
    cellAt (current w) row col = Some wasAlive ∧
    countLiveCells w = (Normal k, w) ∧
    countLiveCells w' = (Normal (if wasAlive then k - 1 else k + 1), w').
Proof.
  intros Hreach Hin. pose proof (reachable_wf w Hreach) as Hwf.
  pose proof (wf_toggleCell row col w Hwf) as Hwf'.
  pose proof Hwf as [Hh [Hrows Hcells] _ Hd _].
  destruct (toggleCell_row_present w row col Hh) as (w' & Ht & S & _ & _ & _ & Hc);
    [apply Hrows, Hin |].
  rewrite decide_True in Ht by (by apply Hd).
  rewrite Ht in Hwf'. cbn [snd] in Hwf'.
  destruct (Hcells row col Hin) as [b Hb].
  assert (gridSize w' = gridSize w) as En
    by (rewrite (sameButRows_eq _ _ S); reflexivity).
  exists w', b, (population (gridSize w) (current w)).
  split; [done |]. split; [done |].
  split; [apply countLiveCells_spec, Hwf |].
  rewrite (countLiveCells_spec w' (wf_current w' Hwf')), En. do 2 f_equal.
  unfold population.
  rewrite (liveAmong_flip _ (current w) (current w') _ (row, col));
    [| apply NoDup_gridCells | by apply elem_of_gridCells |].
  - unfold aliveAt. cbn [fst snd].
    rewrite bool_decide_eq_true_2 by done.
    rewrite Hc, decide_True, Hb by done. cbn. destruct b; cbn; lia.
  - intros [r c] Hne. unfold aliveAt. cbn [fst snd].
    rewrite Hc, decide_False; [done |]. intros [-> ->]. done.
Qed.

Lemma X2_toggleCell_changes_count_by_one_witness :
  ∃ w' wasAlive k,
    toggleCell 1 0 (run (ToggleCell 0 0) (constructor 2).2).2 = (Normal tt, w') ∧
    cellAt (current (run (ToggleCell 0 0) (constructor 2).2).2) 1 0 = Some wasAlive ∧
    countLiveCells (run (ToggleCell 0 0) (constructor 2).2).2
    = (Normal k, (run (ToggleCell 0 0) (constructor 2).2).2) ∧
    countLiveCells w' = (Normal (if wasAlive then k - 1 else k + 1), w').
Proof.
  apply (X2_toggleCell_changes_count_by_one
           (run (ToggleCell 0 0) (constructor 2).2).2 1 0).
  - apply reach_op, reach_new.
  - vm_compute. repeat split; discriminate.
Defined.

(** ** Small populations *)

Lemma NoDup_self_adjacent row col : NoDup ((row, col) :: adjacent row col).
Proof.
  unfold adjacent.
  repeat (apply NoDup_cons_2;
          [intros H;
           repeat (apply elem_of_cons in H; destruct H as [Heq|H];
                   [inversion Heq; lia |]);
           by apply elem_of_nil in H |]).
  apply NoDup_nil_2.
Qed.

Lemma aliveAt_inGrid n g row col : aliveAt n g row col = true → inGrid n row col.
Proof.
  unfold aliveAt. intros [H _]%andb_prop. by apply bool_decide_eq_true in H.
Qed.

(** The alive cells among distinct positions are no more than the alive
    cells of the grid. *)
Lemma liveAmong_le_population n g ps :
  NoDup ps → liveAmong n g ps ≤ population n g.
Proof.
  intros Hnd. unfold population, liveAmong. apply inj_le, submseteq_length.
  apply NoDup_submseteq; [by apply NoDup_filter |].
  intros [r c]. rewrite !list_elem_of_filter. cbn [fst snd]. intros [Ha _].
  split; [done |]. by eapply elem_of_gridCells, aliveAt_inGrid.
Qed.

Lemma nextState_sparse w row col :
  inGrid (gridSize w) row col →
  population (gridSize w) (current w) ≤ 2 →
  nextState w row col = false.
Proof.
  intros Hin Hpop.
  pose proof (liveAmong_le_population (gridSize w) (current w) _
                (NoDup_self_adjacent row col)) as Hle.
  rewrite liveAmong_cons in Hle. cbn [fst snd] in Hle.
  pose proof (liveAmong_bounds (gridSize w) (current w) (adjacent row col)) as [Hk _].
  unfold nextState, conway.
  unfold aliveAt in Hle. rewrite bool_decide_eq_true_2 in Hle by done.
  cbn [andb] in Hle.
  set (k := liveAmong _ _ _) in *.
  destruct (truthy (cellAt (current w) row col)); cbn [Z.b2z] in Hle.
  - by rewrite (proj2 (Z.ltb_lt k 2)) by lia.
  - by rewrite (proj2 (Z.eqb_neq k 3)) by lia.
Qed.

Lemma population_dead n g :
  (∀ row col, inGrid n row col → cellAt g row col = Some false) →
  population n g = 0.
Proof.
  intros Hdead. unfold population.
  assert (∀ ps, liveAmong n g ps = 0) as H; [| apply H].
  induction ps as [|[r c] ps IH]; [done |].
  rewrite liveAmong_cons, IH. unfold aliveAt. cbn [fst snd].
  case_bool_decide; [| done]. by rewrite Hdead.
Qed.

(** X3. Fewer than three alive cells die out: on a reachable engine for
    which [countLiveCells] returns at most 2, [step] completes and leaves
    every cell of the grid dead, and [countLiveCells] then returns 0.
    In particular the empty grid stays empty. *)
Theorem X3_fewer_than_three_die_out (w : World) (k : Z) :
  reachable w →
  countLiveCells w = (Normal k, w) →
  k ≤ 2 →
  ∃ w', step w = (Normal tt, w') ∧
        (∀ row col, inGrid (gridSize w) row col →
                    cellAt (current w') row col = Some false) ∧
        countLiveCells w' = (Normal 0, w').
Proof.
  intros Hreach Hcount Hk. pose proof (reachable_wf w Hreach) as Hwf.
  pose proof (wf_step w Hwf) as Hwf'.
  pose proof Hwf as [Hh Hc Hn _ _].
  rewrite (countLiveCells_spec w Hc) in Hcount. injection Hcount as <-.
  destruct (step_spec w Hh Hc Hn) as (w' & Hstep & Hw' & _ & _ & _ & Hcells);
    [intros; by apply wf_cells_in |].
  rewrite Hstep in Hwf'. cbn [snd] in Hwf'.
  assert (gridSize w' = gridSize w) as En by (rewrite Hw'; reflexivity).
  assert (∀ row col, inGrid (gridSize w) row col →
                     cellAt (current w') row col = Some false) as Hdead.
  { intros row col Hin. rewrite Hcells, decide_True by done.
    by rewrite nextState_sparse. }
  exists w'. split; [done |]. split; [done |].
  rewrite (countLiveCells_spec w' (wf_current w' Hwf')), En.
  by rewrite population_dead.
Qed.

Lemma X3_fewer_than_three_die_out_witness :
  ∃ w', step (run (ToggleCell 1 2) (run (ToggleCell 1 1) (constructor 3).2).2).2
        = (Normal tt, w') ∧
        (∀ row col,
           inGrid (gridSize (run (ToggleCell 1 2)
                               (run (ToggleCell 1 1) (constructor 3).2).2).2) row col →
           cellAt (current w') row col = Some false) ∧
        countLiveCells w' = (Normal 0, w').
Proof.
  apply (X3_fewer_than_three_die_out
           (run (ToggleCell 1 2) (run (ToggleCell 1 1) (constructor 3).2).2).2 2).
  - apply reach_op, reach_op, reach_new.
  - vm_compute. reflexivity.
  - lia.
Defined.

(** ** The block and the blinker *)

(** A grid whose alive cells are exactly the positions [P], all inside
    the grid. *)
Section pattern.
Context (w : World) (P : Z → Z → Prop) `{∀ row col, Decision (P row col)}.
Hypothesis Hinside : ∀ row col, P row col → inGrid (gridSize w) row col.
Hypothesis Hgrid : ∀ row col,
  inGrid (gridSize w) row col →
  cellAt (current w) row col = Some (bool_decide (P row col)).

Lemma pattern_aliveAt row col :
  aliveAt (gridSize w) (current w) row col = bool_decide (P row col).
Proof.
  unfold aliveAt. case_bool_decide as Hin.
  - by rewrite Hgrid.
  - cbn. symmetry. apply bool_decide_eq_false_2. intros HP. by apply Hin, Hinside.
Qed.

Lemma pattern_nextState row col :
  inGrid (gridSize w) row col →
  nextState w row col
  = conway (bool_decide (P row col))
      (Z.b2z (bool_decide (P (row - 1) (col - 1))) +
       (Z.b2z (bool_decide (P (row - 1) col)) +
        (Z.b2z (bool_decide (P (row - 1) (col + 1))) +
         (Z.b2z (bool_decide (P row (col - 1))) +
          (Z.b2z (bool_decide (P row (col + 1))) +
           (Z.b2z (bool_decide (P (row + 1) (col - 1))) +
            (Z.b2z (bool_decide (P (row + 1) col)) +
             (Z.b2z (bool_decide (P (row + 1) (col + 1))) + 0)))))))).
Proof.
  intros Hin. unfold nextState, adjacent.
  rewrite !liveAmong_cons, liveAmong_nil. cbn [fst snd].
  by rewrite !pattern_aliveAt, Hgrid.
Qed.
End pattern.

(** Decide every membership test of the goal by arithmetic, then
    compute the rule. *)
Ltac settle_pattern unfolder :=
  repeat (first [ rewrite bool_decide_eq_true_2 by (unfolder; lia)
                | rewrite bool_decide_eq_false_2 by (unfolder; lia) ]);
  reflexivity.

Lemma block_nextState w r c row col :
  0 ≤ r → r + 1 < gridSize w → 0 ≤ c → c + 1 < gridSize w →
  (∀ row col, inGrid (gridSize w) row col →
              cellAt (current w) row col = Some (bool_decide (inBlock r c row col))) →
  inGrid (gridSize w) row col →
  nextState w row col = bool_decide (inBlock r c row col).
Proof.
  intros Hr1 Hr2 Hc1 Hc2 Hgrid Hin.
  rewrite (pattern_nextState w (inBlock r c)); [| | done..].
  2:{ unfold inBlock, inGrid. lia. }
  assert (row < r - 1 ∨ row = r - 1 ∨ row = r ∨ row = r + 1 ∨ row = r + 2 ∨ r + 2 < row)
    as Hrow by lia.
  assert (col < c - 1 ∨ col = c - 1 ∨ col = c ∨ col = c + 1 ∨ col = c + 2 ∨ c + 2 < col)
    as Hcol by lia.
  destruct Hrow as [?|[?|[?|[?|[?|?]]]]], Hcol as [?|[?|[?|[?|[?|?]]]]];
    settle_pattern ltac:(unfold inBlock).
Qed.

Lemma hbar_nextState w r c row col :
  1 ≤ r → r + 1 < gridSize w → 1 ≤ c → c + 1 < gridSize w →
  (∀ row col, inGrid (gridSize w) row col →
              cellAt (current w) row col = Some (bool_decide (inHBar r c row col))) →
  inGrid (gridSize w) row col →
  nextState w row col = bool_decide (inVBar r c row col).
Proof.
  intros Hr1 Hr2 Hc1 Hc2 Hgrid Hin.
  rewrite (pattern_nextState w (inHBar r c)); [| | done..].
  2:{ unfold inHBar, inGrid. lia. }
  assert (row < r - 1 ∨ row = r - 1 ∨ row = r ∨ row = r + 1 ∨ r + 1 < row)
    as Hrow by lia.
  assert (col < c - 2 ∨ col = c - 2 ∨ col = c - 1 ∨ col = c ∨ col = c + 1 ∨
          col = c + 2 ∨ c + 2 < col) as Hcol by lia.
  destruct Hrow as [?|[?|[?|[?|?]]]], Hcol as [?|[?|[?|[?|[?|[?|?]]]]]];
    settle_pattern ltac:(unfold inHBar, inVBar).
Qed.

Lemma vbar_nextState w r c row col :
  1 ≤ r → r + 1 < gridSize w → 1 ≤ c → c + 1 < gridSize w →
  (∀ row col, inGrid (gridSize w) row col →
              cellAt (current w) row col = Some (bool_decide (inVBar r c row col))) →
  inGrid (gridSize w) row col →
  nextState w row col = bool_decide (inHBar r c row col).
Proof.
  intros Hr1 Hr2 Hc1 Hc2 Hgrid Hin.
  rewrite (pattern_nextState w (inVBar r c)); [| | done..].
  2:{ unfold inVBar, inGrid. lia. }
  assert (row < r - 2 ∨ row = r - 2 ∨ row = r - 1 ∨ row = r ∨ row = r + 1 ∨
          row = r + 2 ∨ r + 2 < row) as Hrow by lia.
  assert (col < c - 1 ∨ col = c - 1 ∨ col = c ∨ col = c + 1 ∨ c + 1 < col)
    as Hcol by lia.
  destruct Hrow as [?|[?|[?|[?|[?|[?|?]]]]]], Hcol as [?|[?|[?|[?|?]]]];
    settle_pattern ltac:(unfold inHBar, inVBar).
Qed.

(** X4. The block is a still life wherever it stands: on a reachable
    engine whose alive cells are exactly the four cells of a 2 x 2 block
    inside the grid, [step] completes and every cell of the grid is as
    it was. *)
Theorem X4_block_is_still_life (w : World) (r c : Z) :
  reachable w →
  0 ≤ r → r + 1 < gridSize w →
  0 ≤ c → c + 1 < gridSize w →
  (∀ row col, inGrid (gridSize w) row col →
              cellAt (current w) row col = Some (bool_decide (inBlock r c row col))) →
  ∃ w', step w = (Normal tt, w') ∧
        ∀ row col, inGrid (gridSize w) row col →
                   cellAt (current w') row col = cellAt (current w) row col.
Proof.
  intros Hreach Hr1 Hr2 Hc1 Hc2 Hblock.
  pose proof (reachable_wf w Hreach) as [Hh Hc Hn Hd _].
  destruct (step_spec w Hh Hc Hn) as (w' & Hstep & _ & _ & _ & _ & Hcells);
    [intros; by apply Hd |].
  exists w'. split; [done |]. intros row col Hin.
  rewrite Hcells, decide_True, Hblock by done.
  by rewrite (block_nextState w r c).
Qed.

Lemma X4_block_is_still_life_witness :
  ∃ w', step (run (ToggleCell 2 2) (run (ToggleCell 2 1) (run (ToggleCell 1 2)
                (run (ToggleCell 1 1) (constructor 4).2).2).2).2).2
        = (Normal tt, w') ∧
        ∀ row col,
          inGrid (gridSize (run (ToggleCell 2 2) (run (ToggleCell 2 1) (run (ToggleCell 1 2)
                    (run (ToggleCell 1 1) (constructor 4).2).2).2).2).2) row col →
          cellAt (current w') row col
          = cellAt (current (run (ToggleCell 2 2) (run (ToggleCell 2 1) (run (ToggleCell 1 2)
                      (run (ToggleCell 1 1) (constructor 4).2).2).2).2).2) row col.
Proof.
  apply (X4_block_is_still_life _ 1 1).
  - do 4 apply reach_op. apply reach_new.
  - lia.
  - vm_compute. reflexivity.
  - lia.
  - vm_compute. reflexivity.
  - intros row col [Hrow Hcol].
    assert (gridSize (run (ToggleCell 2 2) (run (ToggleCell 2 1) (run (ToggleCell 1 2)
                (run (ToggleCell 1 1) (constructor 4).2).2).2).2).2 = 4) as E
      by (vm_compute; reflexivity).
    rewrite E in Hrow, Hcol.
    assert (row = 0 ∨ row = 1 ∨ row = 2 ∨ row = 3) as Hr by lia.
    assert (col = 0 ∨ col = 1 ∨ col = 2 ∨ col = 3) as Hc by lia.
    destruct Hr as [->|[->|[->| ->]]], Hc as [->|[->|[->| ->]]];
      vm_compute; reflexivity.
Defined.

(** X16. The blinker oscillates with period 2 wherever it has room: on
    a reachable engine whose alive cells are exactly three cells in a
    row, one cell away from every border, [step] completes and leaves
    exactly the three cells in a column through the same centre alive;
    a second [step] completes and restores every cell of the grid. *)
Theorem X16_blinker_has_period_two (w : World) (r c : Z) :
  reachable w →
  1 ≤ r → r + 1 < gridSize w →
  1 ≤ c → c + 1 < gridSize w →
  (∀ row col, inGrid (gridSize w) row col →
              cellAt (current w) row col = Some (bool_decide (inHBar r c row col))) →
  ∃ w1 w2,
    step w = (Normal tt, w1) ∧ step w1 = (Normal tt, w2) ∧
    (∀ row col, inGrid (gridSize w) row col →
                cellAt (current w1) row col = Some (bool_decide (inVBar r c row col))) ∧
    (∀ row col, inGrid (gridSize w) row col →
                cellAt (current w2) row col = cellAt (current w) row col).
Proof.
  intros Hreach Hr1 Hr2 Hc1 Hc2 Hgrid.
  pose proof (reachable_wf w Hreach) as Hwf.
  pose proof Hwf as [Hh Hc Hn Hd _].
  destruct (step_spec w Hh Hc Hn) as (w1 & Hstep1 & Hw1 & _ & _ & _ & Hcells1);
    [intros; by apply Hd |].
  pose proof (wf_step w Hwf) as Hwf1. rewrite Hstep1 in Hwf1. cbn [snd] in Hwf1.
  assert (gridSize w1 = gridSize w) as En by (rewrite Hw1; reflexivity).
  pose proof Hwf1 as [Hh1 Hc1' Hn1 Hd1 _].
  destruct (step_spec w1 Hh1 Hc1' Hn1) as (w2 & Hstep2 & _ & _ & _ & _ & Hcells2);
    [intros; by apply Hd1 |].
  assert (∀ row col, inGrid (gridSize w) row col →
            cellAt (current w1) row col = Some (bool_decide (inVBar r c row col)))
    as Hv.
  { intros row col Hin. rewrite Hcells1, decide_True by done.
    by rewrite (hbar_nextState w r c). }
  exists w1, w2. split; [done |]. split; [done |]. split; [done |].
  intros row col Hin. rewrite Hcells2, En, decide_True, Hgrid by done.
  rewrite <- En in Hr2, Hc2, Hv, Hin.
  by rewrite (vbar_nextState w1 r c).
Qed.

Lemma X16_blinker_has_period_two_witness :
  ∃ w1 w2,
    step (run (ToggleCell 1 2) (run (ToggleCell 1 1) (run (ToggleCell 1 0)
            (constructor 3).2).2).2).2 = (Normal tt, w1) ∧
    step w1 = (Normal tt, w2) ∧
    (∀ row col,
       inGrid (gridSize (run (ToggleCell 1 2) (run (ToggleCell 1 1) (run (ToggleCell 1 0)
                 (constructor 3).2).2).2).2) row col →
       cellAt (current w1) row col = Some (bool_decide (inVBar 1 1 row col))) ∧
    (∀ row col,
       inGrid (gridSize (run (ToggleCell 1 2) (run (ToggleCell 1 1) (run (ToggleCell 1 0)
                 (constructor 3).2).2).2).2) row col →
       cellAt (current w2) row col
       = cellAt (current (run (ToggleCell 1 2) (run (ToggleCell 1 1) (run (ToggleCell 1 0)
                   (constructor 3).2).2).2).2) row col).
Proof.
  apply (X16_blinker_has_period_two _ 1 1).
  - do 3 apply reach_op. apply reach_new.
  - lia.
  - vm_compute. reflexivity.
  - lia.
  - vm_compute. reflexivity.
  - intros row col [Hrow Hcol].
    assert (gridSize (run (ToggleCell 1 2) (run (ToggleCell 1 1) (run (ToggleCell 1 0)
                (constructor 3).2).2).2).2 = 3) as E by (vm_compute; reflexivity).
    rewrite E in Hrow, Hcol.
    assert (row = 0 ∨ row = 1 ∨ row = 2) as Hr by lia.
    assert (col = 0 ∨ col = 1 ∨ col = 2) as Hc by lia.
    destruct Hr as [->|[->| ->]], Hc as [->|[->| ->]]; vm_compute; reflexivity.
Defined.

(** ** Neighbours at and beyond the border *)

Lemma aliveAt_weight n g row col :
  0 ≤ Z.b2z (aliveAt n g row col) ≤ 1 ∧
  (¬ inGrid n row col → Z.b2z (aliveAt n g row col) = 0).
Proof.
  split; [destruct (aliveAt n g row col); cbn; lia |].
  intros Hout. unfold aliveAt. by rewrite bool_decide_eq_false_2.
Qed.

(** The neighbour count as eight weights, each 0 or 1, and 0 outside the
    grid. *)
Ltac weigh_neighbours n g row col :=
  unfold adjacent; rewrite !liveAmong_cons, liveAmong_nil; cbn [fst snd];
  pose proof (aliveAt_weight n g (row - 1) (col - 1));
  pose proof (aliveAt_weight n g (row - 1) col);
  pose proof (aliveAt_weight n g (row - 1) (col + 1));
  pose proof (aliveAt_weight n g row (col - 1));
  pose proof (aliveAt_weight n g row (col + 1));
  pose proof (aliveAt_weight n g (row + 1) (col - 1));
  pose proof (aliveAt_weight n g (row + 1) col);
  pose proof (aliveAt_weight n g (row + 1) (col + 1));
  unfold inGrid in *.

Lemma liveAmong_border n g row col :
  inGrid n row col →
  (row = 0 ∨ row = n - 1 ∨ col = 0 ∨ col = n - 1 →
     liveAmong n g (adjacent row col) ≤ 5) ∧
  ((row = 0 ∨ row = n - 1) ∧ (col = 0 ∨ col = n - 1) →
     liveAmong n g (adjacent row col) ≤ 3).
Proof.
  intros Hin. weigh_neighbours n g row col. split; intros Hb; lia.
Qed.

Lemma liveAmong_outside n g row col :
  ¬ inGrid n row col →
  liveAmong n g (adjacent row col) ≤ 3 ∧
  (row < -1 ∨ n < row ∨ col < -1 ∨ n < col →
     liveAmong n g (adjacent row col) = 0).
Proof.
  intros Hout. weigh_neighbours n g row col. split; [| intros Hfar]; lia.
Qed.

(** X5. No wraparound at the border: for a cell on the border of the
    grid of a reachable engine [countLiveNeighbors] completes, leaves the
    state as it is and returns at most 5, and for a corner cell at most
    3, whatever the grid holds. *)
Theorem X5_border_cells_have_fewer_neighbours (w : World) (row col : Z) :
  reachable w →
  inGrid (gridSize w) row col →
  ∃ k, countLiveNeighbors row col w = (Normal k, w) ∧
       (row = 0 ∨ row = gridSize w - 1 ∨ col = 0 ∨ col = gridSize w - 1 → k ≤ 5) ∧
       ((row = 0 ∨ row = gridSize w - 1) ∧ (col = 0 ∨ col = gridSize w - 1) → k ≤ 3).
Proof.
  intros Hreach Hin. pose proof (reachable_wf w Hreach) as [_ Hc _ _ _].
  exists (liveAmong (gridSize w) (current w) (adjacent row col)).
  split; [by apply countLiveNeighbors_spec |].
  by apply liveAmong_border.
Qed.

Lemma X5_border_cells_have_fewer_neighbours_witness :
  ∃ k, countLiveNeighbors 0 0
         (run (ToggleCell 1 1) (run (ToggleCell 1 0)
            (run (ToggleCell 0 1) (constructor 2).2).2).2).2
       = (Normal k,
          (run (ToggleCell 1 1) (run (ToggleCell 1 0)
             (run (ToggleCell 0 1) (constructor 2).2).2).2).2) ∧
       k = 3 ∧ k ≤ 3.
Proof.
  destruct (X5_border_cells_have_fewer_neighbours
              (run (ToggleCell 1 1) (run (ToggleCell 1 0)
                 (run (ToggleCell 0 1) (constructor 2).2).2).2).2 0 0)
    as (k & Hk & _ & Hcorner).
  - do 3 apply reach_op. apply reach_new.
  - vm_compute. repeat split; discriminate.
  - exists k. split; [exact Hk |]. split.
    + vm_compute in Hk. by injection Hk as <-.
    + apply Hcorner. split; by left.
Defined.

(** X6. The bounds test makes [countLiveNeighbors] safe at any
    coordinates: for a position outside the grid of a reachable engine it
    completes without a throw and without a change of state, returns at
    most 3, and returns 0 when the position is not next to the grid. *)
Theorem X6_countLiveNeighbors_outside_the_grid (w : World) (row col : Z) :
  reachable w →
  ¬ inGrid (gridSize w) row col →
  ∃ k, countLiveNeighbors row col w = (Normal k, w) ∧
       0 ≤ k ≤ 3 ∧
       (row < -1 ∨ gridSize w < row ∨ col < -1 ∨ gridSize w < col → k = 0).
Proof.
  intros Hreach Hout. pose proof (reachable_wf w Hreach) as [_ Hc _ _ _].
  exists (liveAmong (gridSize w) (current w) (adjacent row col)).
  split; [by apply countLiveNeighbors_spec |].
  pose proof (liveAmong_bounds (gridSize w) (current w) (adjacent row col)) as [H0 _].
  destruct (liveAmong_outside (gridSize w) (current w) row col Hout) as [H3 Hfar].
  split; [lia | done].
Qed.

Lemma X6_countLiveNeighbors_outside_the_grid_witness :
  ∃ k, countLiveNeighbors (-1) 2
         (run (ToggleCell 0 1) (constructor 2).2).2
       = (Normal k, (run (ToggleCell 0 1) (constructor 2).2).2) ∧
       0 ≤ k ≤ 3 ∧
       (-1 < -1 ∨ gridSize (run (ToggleCell 0 1) (constructor 2).2).2 < -1 ∨
        2 < -1 ∨ gridSize (run (ToggleCell 0 1) (constructor 2).2).2 < 2 → k = 0).
Proof.
  apply (X6_countLiveNeighbors_outside_the_grid
           (run (ToggleCell 0 1) (constructor 2).2).2 (-1) 2).
  - apply reach_op, reach_new.
  - unfold inGrid. lia.
Defined.

(** ** Repeated steps *)

Lemma steps_spec k :
  ∀ w, wf w →
  ∃ w', steps k w = (Normal tt, w') ∧ wf w' ∧
        generation w' = generation w + Z.of_nat k ∧
        currentGrid w' = (if Nat.even k then currentGrid w else nextGrid w) ∧
        nextGrid w' = (if Nat.even k then nextGrid w else currentGrid w) ∧
        grids w' = grids w ∧ nextRef w' = nextRef w ∧
        gridSize w' = gridSize w ∧ isRunning w' = isRunning w ∧
        speed w' = speed w ∧ intervalId w' = intervalId w ∧
        timers w' = timers w.
Proof.
  induction k as [|k IH]; intros w Hwf.
  - exists w. cbn [steps Nat.even Z.of_nat]. rewrite Z.add_0_r.
    split; [done |]. split; [done |]. by repeat split.
  - pose proof Hwf as [Hh Hc Hn Hd _].
    destruct (step_spec w Hh Hc Hn) as (w1 & Hstep & Hw1 & _);
      [intros; by apply Hd |].
    pose proof (wf_step w Hwf) as Hwf1. rewrite Hstep in Hwf1. cbn [snd] in Hwf1.
    destruct (IH w1 Hwf1)
      as (w' & Hk & Hwf' & Eg & Ec & En & Egr & Enr & Es & Er & Esp & Ei & Et).
    exists w'. cbn [steps]. rewrite (bind_normal _ _ _ _ _ Hstep).
    split; [done |]. split; [done |].
    rewrite Nat.even_succ, <- Nat.negb_even.
    rewrite Eg, Ec, En, Egr, Enr, Es, Er, Esp, Ei, Et, Hw1.
    cbn [generation currentGrid nextGrid grids nextRef gridSize isRunning speed
         intervalId timers set_generation set_nextGrid set_currentGrid set_rows].
    repeat split; try done; [lia | by destruct (Nat.even k)..].
Qed.

(** X7. Any number of steps in a row: on a reachable engine [k] calls of
    [step] all complete; the generation counter has grown by [k]; the two
    buffers have changed roles [k] times, so that after an even number
    of steps the same array is current again; no array was allocated;
    and the size, the run state, the speed and the timer are as before. *)
Theorem X7_steps_advance_generation_and_alternate_buffers (w : World) (k : nat) :
  reachable w →
  ∃ w', steps k w = (Normal tt, w') ∧
        generation w' = generation w + Z.of_nat k ∧
        currentGrid w' = (if Nat.even k then currentGrid w else nextGrid w) ∧
        nextGrid w' = (if Nat.even k then nextGrid w else currentGrid w) ∧
        grids w' = grids w ∧ nextRef w' = nextRef w ∧
        gridSize w' = gridSize w ∧ isRunning w' = isRunning w ∧
        speed w' = speed w ∧ intervalId w' = intervalId w ∧
        timers w' = timers w.
Proof.
  intros Hreach.
  destruct (steps_spec k w (reachable_wf w Hreach)) as (w' & Hk & _ & H).
  by exists w'.
Qed.

Lemma X7_steps_advance_generation_and_alternate_buffers_witness :
  ∃ w', steps 3 (run (ToggleCell 1 1) (constructor 3).2).2 = (Normal tt, w') ∧
        generation w' = generation (run (ToggleCell 1 1) (constructor 3).2).2 + Z.of_nat 3 ∧
        currentGrid w' = (if Nat.even 3
                          then currentGrid (run (ToggleCell 1 1) (constructor 3).2).2
                          else nextGrid (run (ToggleCell 1 1) (constructor 3).2).2) ∧
        nextGrid w' = (if Nat.even 3
                       then nextGrid (run (ToggleCell 1 1) (constructor 3).2).2
                       else currentGrid (run (ToggleCell 1 1) (constructor 3).2).2) ∧
        grids w' = grids (run (ToggleCell 1 1) (constructor 3).2).2 ∧
        nextRef w' = nextRef (run (ToggleCell 1 1) (constructor 3).2).2 ∧
        gridSize w' = gridSize (run (ToggleCell 1 1) (constructor 3).2).2 ∧
        isRunning w' = isRunning (run (ToggleCell 1 1) (constructor 3).2).2 ∧
        speed w' = speed (run (ToggleCell 1 1) (constructor 3).2).2 ∧
        intervalId w' = intervalId (run (ToggleCell 1 1) (constructor 3).2).2 ∧
        timers w' = timers (run (ToggleCell 1 1) (constructor 3).2).2.
Proof.
  apply (X7_steps_advance_generation_and_alternate_buffers
           (run (ToggleCell 1 1) (constructor 3).2).2 3).
  apply reach_op, reach_new.
Defined.

(** ** Which operations can throw *)

Lemma toggleStartPause_frame w :
  (toggleStartPause w).1 = Normal tt ∧ sameGrids w (toggleStartPause w).2 ∧
  isRunning (toggleStartPause w).2 = negb (isRunning w).
Proof.
  unfold toggleStartPause, bind, gets. destruct (isRunning w) eqn:E.
  - rewrite pause_paused. destruct (paused_frame w). by cbn.
  - destruct (start_frame w). split; [apply start_normal | done].
Qed.

Lemma setSpeed_normal s w : (setSpeed s w).1 = Normal tt.
Proof.
  destruct (isRunning w) eqn:E.
  - rewrite setSpeed_running by done. apply start_normal.
  - by rewrite setSpeed_stopped.
Qed.

Lemma toggleCell_completion w row col :
  wf w →
  (toggleCell row col w).1
  = if decide (inGrid (gridSize w) row col) then Normal tt else Throw TypeError.
Proof.
  intros [Hh [Hrows _] _ Hd _].
  destruct (decide (hasRow (current w) row)) as [Hrow|Hrow].
  - destruct (toggleCell_row_present w row col Hh Hrow) as (w' & -> & _). cbn [fst].
    apply decide_ext, Hd.
  - rewrite toggleCell_row_missing by done. cbn [fst].
    rewrite decide_False; [done |]. intros [Hr _]. by apply Hrow, Hrows.
Qed.

(** X8. On a reachable engine, also after operations that threw, the
    only operation that can throw is [toggleCell] with coordinates
    outside the grid, which throws a [TypeError]; [start], [pause],
    [toggleStartPause], [step], [clear], [randomize], [setSpeed] and
    [toggleCell] inside the grid complete normally. *)
Theorem X8_only_out_of_grid_toggle_throws (w : World) (o : op) :
  reachable w →
  (run o w).1 =
    match o with
    | ToggleCell row col =>
        if decide (inGrid (gridSize w) row col) then Normal tt else Throw TypeError
    | _ => Normal tt
    end.
Proof.
  intros Hreach. pose proof (reachable_wf w Hreach) as Hwf.
  pose proof Hwf as [Hh Hc Hn Hd _].
  destruct o as [| | | | |coin|s|row col]; cbn [run].
  - apply start_normal.
  - by rewrite pause_paused.
  - apply toggleStartPause_frame.
  - destruct (step_spec w Hh Hc Hn) as (w' & -> & _); [intros; by apply Hd | done].
  - destruct (clear_spec w Hh) as (w' & -> & _); [intros; by apply Hd | done].
  - destruct (randomize_spec coin w Hh Hc) as (w' & -> & _); [intros; by apply Hd | done].
  - apply setSpeed_normal.
  - by apply toggleCell_completion.
Qed.

Lemma X8_only_out_of_grid_toggle_throws_witness :
  (run Step (run (ToggleCell 0 5) (constructor 2).2).2).1 = Normal tt.
Proof.
  apply (X8_only_out_of_grid_toggle_throws (run (ToggleCell 0 5) (constructor 2).2).2 Step).
  apply reach_op, reach_new.
Defined.

(** ** The engine as the page drives it *)

Lemma filled_exact n val g g' : exact n g → filled n val g g' → exact n g'.
Proof.
  intros Hx [_ Hc] row col Hout. rewrite Hc, decide_False by done. by apply Hx.
Qed.

Lemma tidy_sameGrids w w' : tidy w → wf w' → sameGrids w w' → tidy w'.
Proof.
  intros (_ & Hc & Hn) Hwf' Hsg. split; [done |].
  rewrite (sameGrids_current _ _ Hsg), (sameGrids_scratch _ _ Hsg).
  destruct Hsg as (-> & _). done.
Qed.

Lemma step_tidy w : tidy w → (step w).1 = Normal tt ∧ tidy (step w).2.
Proof.
  intros (Hwf & Hxc & Hxn). pose proof (wf_step w Hwf) as Hwf'.
  pose proof Hwf as [Hh Hc Hn Hd _].
  destruct (step_spec w Hh Hc Hn) as (w' & Hstep & Hw' & _ & Hscr & Hfill);
    [intros; by apply Hd |].
  rewrite Hstep in Hwf' |- *. cbn [fst snd] in *.
  assert (gridSize w' = gridSize w) as En by (rewrite Hw'; reflexivity).
  split; [done |]. split; [done |]. rewrite En, Hscr.
  split; [exact (filled_exact _ _ _ _ Hxn Hfill) | done].
Qed.

Lemma toggleCell_tidy w row col :
  tidy w → inGrid (gridSize w) row col →
  (toggleCell row col w).1 = Normal tt ∧ tidy (toggleCell row col w).2.
Proof.
  intros (Hwf & Hxc & Hxn) Hin. pose proof (wf_toggleCell row col w Hwf) as Hwf'.
  split; [by rewrite toggleCell_completion, decide_True |].
  split; [done |].
  pose proof Hwf as [Hh [Hrows _] _ _ _].
  destruct (toggleCell_row_present w row col Hh) as (w' & Ht & S & _ & Hscr & _ & Hc);
    [apply Hrows, Hin |].
  rewrite Ht. cbn [snd].
  assert (gridSize w' = gridSize w) as En
    by (rewrite (sameButRows_eq _ _ S); reflexivity).
  rewrite En, Hscr. split; [| done].
  intros r c Hout. rewrite Hc, decide_False; [by apply Hxc |].
  intros [-> ->]. done.
Qed.

Lemma dispatch_tidy w e :
  tidy w → (dispatch e w).1 = Normal tt ∧ tidy (dispatch e w).2.
Proof.
  intros Ht. pose proof Ht as (Hwf & Hxc & Hxn).
  pose proof Hwf as [Hh Hc Hn Hd _].
  destruct e as [| | |coin|s|row col|h]; cbn [dispatch].
  - destruct (toggleStartPause_frame w) as (Hn' & Hsg & _).
    split; [done |]. eapply tidy_sameGrids; [done | by apply wf_toggleStartPause | done].
  - unfold stepBtn_click, bind, gets. destruct (isRunning w); cbn [negb].
    + done.
    + by apply step_tidy.
  - pose proof (wf_clear w Hwf) as Hwf'.
    destruct (clear_spec w Hh) as (w' & Hcl & S%sameButHeap_eq & _ & Heq & Hdead);
      [intros; by apply Hd |].
    rewrite Hcl in Hwf' |- *. cbn [fst snd] in *.
    destruct (paused_frame w) as [(En & _) _].
    assert (gridSize w' = gridSize w) as En' by (rewrite S; exact En).
    split; [done |]. split; [done |]. rewrite <- Heq, En'.
    split; by apply dead_exact.
  - pose proof (wf_randomize coin w Hwf) as Hwf'.
    destruct (randomize_spec coin w Hh Hc)
      as (w' & Hra & S%sameButRows_eq & _ & Hscr & Hfill); [intros; by apply Hd |].
    rewrite Hra in Hwf' |- *. cbn [fst snd] in *.
    destruct (paused_frame w) as [(En & _) _].
    assert (gridSize w' = gridSize w) as En' by (rewrite S; exact En).
    split; [done |]. split; [done |]. rewrite Hscr, En'.
    split; [exact (filled_exact _ _ _ _ Hxc Hfill) | done].
  - unfold speedSlider_input. split; [apply setSpeed_normal |].
    pose proof (setSpeed_sameGrids s w) as Hsg.
    split; [by apply wf_setSpeed |].
    rewrite (sameGrids_current _ _ Hsg), (sameGrids_scratch _ _ Hsg).
    destruct Hsg as (-> & _). done.
  - unfold bind, gets. case_decide as Hcell; [| done].
    apply toggleCell_tidy; [done | by apply Hd].
  - unfold bind, gets. case_decide; [by apply step_tidy | done].
Qed.

Lemma constructor_tidy size : tidy (constructor size).2.
Proof.
  split; [apply wf_constructor |].
  destruct (constructor_spec size) as (w & -> & En & _ & _ & _ & _ & _ & _ & Heq & Hd & _).
  cbn [snd]. rewrite En, <- Heq. split; by apply dead_exact.
Qed.

Lemma ui_reachable_tidy w : ui_reachable w → tidy w.
Proof.
  induction 1 as [size|w e _ IH]; [apply constructor_tidy | by apply dispatch_tidy].
Qed.

(** X9. Driven through the page (the four buttons, the slider, clicks on
    cell elements, timer ticks) the engine never throws, and both buffers
    always hold a defined cell at exactly the positions of the n x n
    grid: the listeners exist only on the cell elements [createDOMGrid]
    made, so [toggleCell] never gets coordinates outside the grid and no
    row ever grows. *)
Theorem X9_page_events_never_throw (w : World) :
  ui_reachable w →
  (∀ e, (dispatch e w).1 = Normal tt) ∧
  (∀ row col, is_Some (cellAt (current w) row col) ↔ inGrid (gridSize w) row col) ∧
  (∀ row col, is_Some (cellAt (scratch w) row col) ↔ inGrid (gridSize w) row col).
Proof.
  intros Hui. pose proof (ui_reachable_tidy w Hui) as Ht.
  pose proof Ht as ([_ [_ Hc] [_ Hn] _ _] & Hxc & Hxn).
  split; [intros e; by apply dispatch_tidy |].
  split; intros row col; (split; [| by auto]);
    intros Hs; destruct (decide (inGrid (gridSize w) row col)) as [|Hout]; try done.
  - rewrite (Hxc row col Hout) in Hs. by destruct Hs.
  - rewrite (Hxn row col Hout) in Hs. by destruct Hs.
Qed.

Lemma X9_page_events_never_throw_witness :
  (dispatch (CellClick 1 1)
     (dispatch (TimerTick 1) (dispatch StartPauseClick
        (dispatch (CellClick 0 7) (constructor 2).2).2).2).2).1 = Normal tt.
Proof.
  apply (X9_page_events_never_throw
           (dispatch (TimerTick 1) (dispatch StartPauseClick
              (dispatch (CellClick 0 7) (constructor 2).2).2).2).2).
  do 3 apply ui_event. apply ui_new.
Defined.

(** ** [randomize] *)

(** X10. [randomize] on a reachable engine completes and rewrites only
    [currentGrid]: every cell of the grid holds the outcome drawn for
    it, what a row holds outside the grid stays, the scratch buffer is
    untouched (unlike [clear], which resets both), and no array is
    allocated; the generation is 0, the engine is stopped with no timer
    left, and the speed is kept. *)
Theorem X10_randomize_rewrites_current_grid_only (w : World) (coin : Z → Z → bool) :
  reachable w →
  ∃ w', randomize coin w = (Normal tt, w') ∧
        (∀ row col, inGrid (gridSize w) row col →
                    cellAt (current w') row col = Some (coin row col)) ∧
        (∀ row col, ¬ inGrid (gridSize w) row col →
                    cellAt (current w') row col = cellAt (current w) row col) ∧
        scratch w' = scratch w ∧
        currentGrid w' = currentGrid w ∧ nextGrid w' = nextGrid w ∧
        grids w' = grids w ∧ nextRef w' = nextRef w ∧
        generation w' = 0 ∧ isRunning w' = false ∧ intervalId w' = None ∧
        timers w' = ∅ ∧ speed w' = speed w ∧ gridSize w' = gridSize w.
Proof.
  intros Hreach. pose proof (reachable_wf w Hreach) as Hwf.
  pose proof Hwf as [Hh Hc _ Hd Ht].
  destruct (randomize_spec coin w Hh Hc)
    as (w' & Hra & S%sameButRows_eq & _ & Hscr & _ & Hcells); [intros; by apply Hd |].
  destruct (paused_frame w) as [(En & Ec & Enx & Eg & _ & Enr & _ & _ & Es) Er].
  destruct (paused_timers_ok w (timers_ok_armed w Ht)) as (_ & Hid & Htm).
  exists w'. split; [done |].
  split; [intros row col Hin; by rewrite Hcells, decide_True |].
  split; [intros row col Hout; by rewrite Hcells, decide_False |].
  split; [done |]. rewrite S.
  cbn [currentGrid nextGrid grids nextRef generation isRunning intervalId timers
       speed gridSize set_rows set_generation].
  by repeat split.
Qed.

Lemma X10_randomize_rewrites_current_grid_only_witness :
  ∃ w', randomize (λ row col, Z.even (row + col)) (run Start (constructor 2).2).2
        = (Normal tt, w') ∧
        (∀ row col, inGrid (gridSize (run Start (constructor 2).2).2) row col →
                    cellAt (current w') row col = Some (Z.even (row + col))) ∧
        (∀ row col, ¬ inGrid (gridSize (run Start (constructor 2).2).2) row col →
                    cellAt (current w') row col
                    = cellAt (current (run Start (constructor 2).2).2) row col) ∧
        scratch w' = scratch (run Start (constructor 2).2).2 ∧
        currentGrid w' = currentGrid (run Start (constructor 2).2).2 ∧
        nextGrid w' = nextGrid (run Start (constructor 2).2).2 ∧
        grids w' = grids (run Start (constructor 2).2).2 ∧
        nextRef w' = nextRef (run Start (constructor 2).2).2 ∧
        generation w' = 0 ∧ isRunning w' = false ∧ intervalId w' = None ∧
        timers w' = ∅ ∧ speed w' = speed (run Start (constructor 2).2).2 ∧
        gridSize w' = gridSize (run Start (constructor 2).2).2.
Proof.
  apply (X10_randomize_rewrites_current_grid_only (run Start (constructor 2).2).2).
  apply reach_op, reach_new.
Defined.

(** ** Starting and pausing *)

Lemma toggleStartPause_stopped w :
  isRunning w = false → toggleStartPause w = start w.
Proof. intros H. unfold toggleStartPause, bind, gets. by rewrite H. Qed.

Lemma toggleStartPause_running w :
  isRunning w = true → toggleStartPause w = pause w.
Proof. intros H. unfold toggleStartPause, bind, gets. by rewrite H. Qed.

(** X11. On a stopped reachable engine, [start] followed by [pause] (or
    two [toggleStartPause]) completes and leaves the engine as it was,
    not running and with no timer armed; only the handle the host gives
    out next has moved on.  [toggleStartPause] always flips [isRunning],
    and [pause] on a stopped engine does nothing. *)
Theorem X11_pause_undoes_start (w : World) :
  reachable w →
  isRunning w = false →
  (start ;;; pause) w = (Normal tt, set_timers (timers w) (Pos.succ (nextTimer w)) w) ∧
  (toggleStartPause ;;; toggleStartPause) w = (start ;;; pause) w ∧
  isRunning (toggleStartPause w).2 = true ∧
  timers w = ∅ ∧
  pause w = (Normal tt, w).
Proof.
  intros Hreach Hstop. pose proof (reachable_wf w Hreach) as Hwf.
  destruct (timers_ok_stopped w (wf_timers w Hwf) Hstop) as [Hid Htm].
  assert ((start ;;; pause) w
          = (Normal tt, set_timers (timers w) (Pos.succ (nextTimer w)) w)) as Hsp.
  { rewrite (bind_normal _ _ _ _ _ (start_stopped w Hstop)).
    rewrite pause_running by done.
    cbn [intervalId timers nextTimer set_intervalId set_timers set_isRunning].
    rewrite Htm, insert_empty, delete_singleton_eq.
    destruct w; cbn in *. by subst. }
  split; [done |]. split; [| split; [| split; [done | by apply pause_stopped]]].
  - unfold bind. rewrite (toggleStartPause_stopped w Hstop).
    rewrite (start_stopped w Hstop). by rewrite toggleStartPause_running.
  - destruct (toggleStartPause_frame w) as (_ & _ & ->). by rewrite Hstop.
Qed.

Lemma X11_pause_undoes_start_witness :
  (start ;;; pause) (run Pause (run Start (constructor 2).2).2).2
  = (Normal tt,
     set_timers (timers (run Pause (run Start (constructor 2).2).2).2)
                (Pos.succ (nextTimer (run Pause (run Start (constructor 2).2).2).2))
                (run Pause (run Start (constructor 2).2).2).2).
Proof.
  destruct (X11_pause_undoes_start (run Pause (run Start (constructor 2).2).2).2)
    as [H _].
  - apply reach_op, reach_op, reach_new.
  - vm_compute. reflexivity.
  - exact H.
Defined.

(** ** [createDOMGrid] *)

(** X12. [createDOMGrid] completes on any state and replaces whatever
    cell elements the page had by the elements of the positions of the
    n x n grid, none when n <= 0; it touches nothing else, and rebuilding
    the grid a second time changes nothing. *)
Theorem X12_createDOMGrid_rebuilds_the_cells (w : World) :
  ∃ w', createDOMGrid w = (Normal tt, w') ∧
        w' = set_cells (cells w') w ∧
        (∀ row col, (row, col) ∈ cells w' ↔ inGrid (gridSize w) row col) ∧
        createDOMGrid w' = (Normal tt, w').
Proof.
  destruct (createDOMGrid_spec w) as (d & Hw & Hd).
  destruct (createDOMGrid_spec (set_cells d w)) as (d' & Hw' & Hd').
  exists (set_cells d w). split; [done |]. split; [done |]. split; [done |].
  rewrite Hw'. f_equal. cbn [set_cells gridSize] in *.
  replace d' with d; [done |].
  apply set_eq. intros [row col]. by rewrite Hd, Hd'.
Qed.

(** * The theme of the page *)

Lemma setTheme_dark p :
  setTheme "dark" p = mkThemePage (Some "dark") "☀️" "Light Mode" (Some "dark").
Proof. done. Qed.

Lemma setTheme_other theme p :
  theme ≠ "dark" → setTheme theme p = mkThemePage None "🌙" "Dark Mode" (Some theme).
Proof. intros H. unfold setTheme. by rewrite decide_False. Qed.

(** X13. [toggleTheme] switches between the two themes: it sets the
    dark theme unless the body already carries [data-theme="dark"], in
    which case it removes the attribute; it stores "dark" or "light"
    accordingly, so that afterwards the stored preference and the
    attribute agree; and from then on two more toggles bring back the
    very same page state. *)
Theorem X13_toggleTheme_switches_and_round_trips (p : ThemePage) :
  dataTheme (toggleTheme p)
  = (if decide (dataTheme p = Some "dark") then None else Some "dark") ∧
  savedTheme (toggleTheme p)
  = Some (if decide (dataTheme p = Some "dark") then "light" else "dark") ∧
  (dataTheme (toggleTheme p) = Some "dark" ↔ savedTheme (toggleTheme p) = Some "dark") ∧
  toggleTheme (toggleTheme (toggleTheme p)) = toggleTheme p.
Proof.
  assert (toggleTheme p
          = if decide (dataTheme p = Some "dark")
            then mkThemePage None "🌙" "Dark Mode" (Some "light")
            else mkThemePage (Some "dark") "☀️" "Light Mode" (Some "dark")) as ->.
  { unfold toggleTheme. by case_decide. }
  case_decide; repeat split; done.
Qed.

(** X14. The preference survives a reload: whatever non-empty theme
    name [setTheme] was last called with, [initializeTheme] on a page
    that has kept only the stored item (no attribute, any texts) gives
    the page state that call gave. *)
Theorem X14_initializeTheme_restores_setTheme
    (theme : string) (before reloaded : ThemePage) :
  theme ≠ "" →
  savedTheme reloaded = savedTheme (setTheme theme before) →
  initializeTheme reloaded = setTheme theme before.
Proof.
  intros Hne Hsaved.
  assert (savedTheme (setTheme theme before) = Some theme) as E
    by (unfold setTheme; by case_decide).
  unfold initializeTheme. rewrite Hsaved, E. unfold orDefault.
  rewrite decide_False by done.
  unfold setTheme. by case_decide.
Qed.

Lemma X14_initializeTheme_restores_setTheme_witness :
  initializeTheme (mkThemePage None "" "" (Some "dark"))
  = setTheme "dark" (mkThemePage None "🌙" "Dark Mode" (Some "light")).
Proof.
  apply (X14_initializeTheme_restores_setTheme "dark").
  - discriminate.
  - reflexivity.
Defined.

(** X15. [initializeTheme] shows the dark theme exactly when the stored
    item is the string "dark"; with no stored item, the empty string, or
    any other string (also "Dark") it shows the light theme.  With no
    item or the empty string it stores "light"; any other string is
    stored back as it was. *)
Theorem X15_initializeTheme_defaults_to_light (p : ThemePage) :
  (dataTheme (initializeTheme p) = Some "dark" ↔ savedTheme p = Some "dark") ∧
  (dataTheme (initializeTheme p) = None ↔ savedTheme p ≠ Some "dark") ∧
  (savedTheme p = None ∨ savedTheme p = Some "" →
     initializeTheme p = mkThemePage None "🌙" "Dark Mode" (Some "light")) ∧
  (∀ s, savedTheme p = Some s → s ≠ "" → savedTheme (initializeTheme p) = Some s).
Proof.
  unfold initializeTheme. destruct (savedTheme p) as [s|] eqn:E; cbn [orDefault].
  - destruct (decide (s = "")) as [->|Hne].
    + rewrite (setTheme_other "light") by done. cbn [dataTheme savedTheme].
      naive_solver.
    + destruct (decide (s = "dark")) as [->|Hd].
      * rewrite setTheme_dark. cbn [dataTheme savedTheme].
        split; [done |]. split; [split; [done | intros H; by destruct H] |].
        split; [intros [?|?]; done |]. by intros s' [= <-] _.
      * rewrite (setTheme_other s) by done. cbn [dataTheme savedTheme].
        split; [split; [done | intros [= ->]; done] |].
        split; [split; [intros _ [= ->]; done | done] |].
        split; [intros [?|[= ->]]; done |]. by intros s' [= <-] _.
  - rewrite (setTheme_other "light") by done. cbn [dataTheme savedTheme].
    naive_solver.
Qed.
